(** * Floor-plan management: layout merge and meeting-room booking

    A shallow embedding of the two pieces of business logic of the
    repository:

    - [resolveConflicts] of [utils/conflictResolution.js], the
      last-writer-wins merge of two floor-plan layouts;
    - [suggestMeetingRoom] and [bookMeetingRoom] of
      [controllers/meetingRoomController.js], room suggestion and booking
      over the [MeetingRoom] and [Booking] collections.

    It also covers [bookMeetingRoom] and [suggestMeetingRoom] of
    [services/meetingRoomService.js], which keep a [booked] flag on each
    room, and [login] and [signup] of [controllers/authController.js].

    Timestamps and instants are integers ([Z]); document identities are
    natural numbers ([N], an ObjectId read as a number); a layout is a
    finite map from string keys to elements. *)

From Stdlib Require Import ZArith List Lia Bool.
From stdpp Require Import gmap strings list fin_maps sorting.

Local Open Scope Z_scope.

(** ** Layouts *)

Module Layout.

(** A layout element: an opaque payload and the timestamp assigned by its
    writer.  Elements are objects, hence truthy in the test
    [if (existingLayout[key])]. *)
Record LayoutElement := mkElement {
  value : string;
  timestamp : Z
}.

#[global] Instance LayoutElement_eq_dec : EqDecision LayoutElement.
Proof. solve_decision. Defined.

(** A layout is a JS object used as a map from keys to elements.  The map
    holds the object's own enumerable properties, which is what the copy
    [{ ...existingLayout }], [Object.entries(newLayout)] and the writes
    [resolvedLayout[key] = value] work on. *)
Abbreviation Layout := (gmap string LayoutElement).

(** The members every plain object inherits from [Object.prototype]. *)
Definition objectPrototypeMembers : list string :=
  [ "constructor"; "__defineGetter__"; "__defineSetter__"; "hasOwnProperty";
    "__lookupGetter__"; "__lookupSetter__"; "isPrototypeOf";
    "propertyIsEnumerable"; "toString"; "valueOf"; "__proto__";
    "toLocaleString" ]%string.

Definition inheritedName (key : string) : bool :=
  existsb (String.eqb key) objectPrototypeMembers.

(** What the read [existingLayout[key]] yields: the object's own element, a
    member inherited from [Object.prototype], or [undefined]. *)
Inductive Property :=
| OwnElement (element : LayoutElement)
| InheritedMember
| Undefined.

Definition getProperty (layout : Layout) (key : string) : Property :=
  match layout !! key with
  | Some element => OwnElement element
  | None => if inheritedName key then InheritedMember else Undefined
  end.

(** The body of the [for (const [key, value] of Object.entries(newLayout))]
    loop: one entry of [newLayout] is folded into [resolvedLayout].  An own
    element and an inherited member are both truthy; the [timestamp] of an
    inherited member is [undefined], against which [>] is false. *)
Definition resolveEntry (existingLayout : Layout)
    (key : string) (value : LayoutElement) (resolvedLayout : Layout) : Layout :=
  match getProperty existingLayout key with
  | OwnElement existing =>
      if timestamp value >? timestamp existing
      then <[key := value]> resolvedLayout
      else resolvedLayout
  | InheritedMember => resolvedLayout
  | Undefined => <[key := value]> resolvedLayout
  end.

(** [resolveConflicts]: start from a copy of [existingLayout] and fold every
    entry of [newLayout] into it. *)
Definition resolveConflicts (existingLayout newLayout : Layout) : Layout :=
  map_fold (resolveEntry existingLayout) existingLayout newLayout.

(** What the merge holds at one key, as a function of what the two inputs
    hold there and of whether the key names an inherited member. *)
Definition pick (inherited : bool) (l r : option LayoutElement)
    : option LayoutElement :=
  match l, r with
  | Some a, Some b => if timestamp b >? timestamp a then Some b else Some a
  | Some a, None => Some a
  | None, Some b => if inherited then None else Some b
  | None, None => None
  end.

(** Two layouts agree on ties when, at every key where both hold an element
    with the same timestamp, they hold the same element. *)
Definition tieFree (A B : Layout) : Prop :=
  forall k a b, A !! k = Some a -> B !! k = Some b ->
    timestamp a = timestamp b -> a = b.

(** No key of the layout names a member of [Object.prototype]. *)
Definition plainKeys (A : Layout) : Prop :=
  forall k, inheritedName k = true -> A !! k = None.

(** Every key that names a member of [Object.prototype] is held by both
    layouts or by neither. *)
Definition sameInheritedKeys (A B : Layout) : Prop :=
  forall k, inheritedName k = true -> (A !! k = None <-> B !! k = None).

End Layout.

(** ** Meeting rooms and bookings *)

Module Rooms.

(** Modelled from the spec: the Mongoose schemas [models/MeetingRoom.js] and
    [models/Booking.js] are not part of the sources; the records carry the
    fields the controller reads and writes (spec section 3: identity,
    capacity, nullable last-allocation instant; room reference, requester,
    participant count, start and end instants). *)
Record MeetingRoom := mkRoom {
  _id : N;
  capacity : Z;
  lastBooked : option Z
}.

Record Booking := mkBooking {
  meetingRoom : N;
  bookedBy : string;
  participants : Z;
  startTime : Z;
  endTime : Z
}.

(** The body of a booking request,
    [{ roomId, bookedBy, participants, startTime, endTime }]. *)
Record BookingRequest := mkRequest {
  req_roomId : N;
  req_bookedBy : string;
  req_participants : Z;
  req_startTime : Z;
  req_endTime : Z
}.

(** The two collections, each in the order the database scans it. *)
Record Store := mkStore {
  rooms : list MeetingRoom;
  bookings : list Booking
}.

(** The responses of the two handlers: status 200 with the suggested room,
    404, the two 400 messages, and 201 with the new booking. *)
Inductive Response :=
| Suggested (room : MeetingRoom)
| NoSuitableRoom
| RoomNotFound
| CapacityExceeded
| SlotConflict
| Booked (booking : Booking).

#[global] Instance MeetingRoom_eq_dec : EqDecision MeetingRoom.
Proof. solve_decision. Defined.
#[global] Instance Booking_eq_dec : EqDecision Booking.
Proof. solve_decision. Defined.
#[global] Instance Response_eq_dec : EqDecision Response.
Proof. solve_decision. Defined.

(** *** Room suggestion *)

(** Ascending order of [lastBooked]: a null instant sorts before every
    date. *)
Definition lastBooked_ltb (a b : option Z) : bool :=
  match a, b with
  | None, None => false
  | None, Some _ => true
  | Some _, None => false
  | Some x, Some y => x <? y
  end.

(** The sort specification [{ capacity: 1, lastBooked: 1 }]: [r1] is strictly
    before [r2]. *)
Definition sortKey_ltb (r1 r2 : MeetingRoom) : bool :=
  (capacity r1 <? capacity r2)
  || ((capacity r1 =? capacity r2)
      && lastBooked_ltb (lastBooked r1) (lastBooked r2)).

(** [r1] is not after [r2]. *)
Definition sortKey_leb (r1 r2 : MeetingRoom) : bool := negb (sortKey_ltb r2 r1).

(** [.sort(...)]: the database leaves the order of documents with equal sort
    keys open; it is modelled by a stable insertion sort, which keeps them in
    scan order. *)
Fixpoint insertRoom (r : MeetingRoom) (sorted : list MeetingRoom) : list MeetingRoom :=
  match sorted with
  | [] => [r]
  | x :: rest =>
      if sortKey_leb r x then r :: x :: rest else x :: insertRoom r rest
  end.

Fixpoint sortRooms (l : list MeetingRoom) : list MeetingRoom :=
  match l with
  | [] => []
  | r :: rest => insertRoom r (sortRooms rest)
  end.

(** [MeetingRoom.find({ capacity: { $gte: participants } })]. *)
Definition findByCapacity (participants : Z) (l : list MeetingRoom) : list MeetingRoom :=
  List.filter (fun r => capacity r >=? participants) l.

Definition suggestMeetingRoom (st : Store) (participants : Z) : Response :=
  let rooms := sortRooms (findByCapacity participants (rooms st)) in
  match rooms with
  | [] => NoSuitableRoom
  | suitableRoom :: _ => Suggested suitableRoom
  end.

(** What the database guarantees of a [.sort({ capacity: 1, lastBooked: 1 })]:
    the documents found, in ascending order of the two keys.  The order of
    documents with equal keys is the database's to choose. *)
Definition admissibleSort (sort : list MeetingRoom -> list MeetingRoom) : Prop :=
  forall l, sort l ≡ₚ l
            /\ StronglySorted (fun a b => sortKey_leb a b = true) (sort l).

(** [suggestMeetingRoom] over any such sort. *)
Definition suggestWith (sort : list MeetingRoom -> list MeetingRoom)
    (st : Store) (participants : Z) : Response :=
  let rooms := sort (findByCapacity participants (rooms st)) in
  match rooms with
  | [] => NoSuitableRoom
  | suitableRoom :: _ => Suggested suitableRoom
  end.

(** A response the handler gives under some order of ties the database may
    choose. *)
Definition maySuggest (st : Store) (participants : Z) (resp : Response) : Prop :=
  exists sort, admissibleSort sort /\ suggestWith sort st participants = resp.

(** A sort that puts [r] before the documents with the same keys: [r] is
    moved to the front of the documents found before they are sorted. *)
Definition sortPreferring (r : MeetingRoom) (l : list MeetingRoom)
    : list MeetingRoom :=
  match list_find (fun x => x = r) l with
  | Some (i, _) => sortRooms (r :: delete i l)
  | None => sortRooms l
  end.

(** Modelled from the spec (section 4.2): the composite key (capacity
    ascending, lastAllocatedAt ascending, identity ascending); [r1] is
    strictly before [r2]. *)
Definition compositeKey_ltb (r1 r2 : MeetingRoom) : bool :=
  sortKey_ltb r1 r2 || (negb (sortKey_ltb r2 r1) && (_id r1 <? _id r2)%N).

(** *** Booking *)

(** [MeetingRoom.findById(roomId)]. *)
Definition findById (roomId : N) (l : list MeetingRoom) : option MeetingRoom :=
  List.find (fun r => (_id r =? roomId)%N) l.

(** The three [$or] clauses of the overlap query, for the requested
    [startTime] and [endTime], on one stored booking. *)
Definition slotClauses (startTime' endTime' : Z) (b : Booking) : bool :=
  ((startTime b <? endTime') && (endTime b >? startTime'))
  || ((startTime b <=? startTime') && (endTime b >=? endTime'))
  || ((startTime b >=? startTime') && (endTime b <=? endTime')).

(** [Booking.find({ meetingRoom: roomId, $or: [...] })]. *)
Definition findOverlapping (roomId : N) (startTime' endTime' : Z)
    (l : list Booking) : list Booking :=
  List.filter
    (fun b => (meetingRoom b =? roomId)%N && slotClauses startTime' endTime' b) l.

Definition newBookingOf (req : BookingRequest) : Booking :=
  {| meetingRoom := req_roomId req;
     bookedBy := req_bookedBy req;
     participants := req_participants req;
     startTime := req_startTime req;
     endTime := req_endTime req |}.

(** [newBooking.save()]: the document is appended to the collection. *)
Definition saveBooking (b : Booking) (st : Store) : Store :=
  {| rooms := rooms st; bookings := bookings st ++ [b] |}.

(** [meetingRoom.lastBooked = new Date(); meetingRoom.save()]: the modified
    path is written to the stored document with that [_id]. *)
Definition setLastBooked (roomId : N) (now : Z) (r : MeetingRoom) : MeetingRoom :=
  if (_id r =? roomId)%N
  then {| _id := _id r; capacity := capacity r; lastBooked := Some now |}
  else r.

Definition saveRoom (roomId : N) (now : Z) (st : Store) : Store :=
  {| rooms := map (setLastBooked roomId now) (rooms st); bookings := bookings st |}.

(** [bookMeetingRoom] run from its first line to its response with no other
    handler in between; [now] is the value of [new Date()].  The database
    operations are taken to succeed: the [catch] branch answering 500 is not
    modelled. *)
Definition bookMeetingRoom (st : Store) (req : BookingRequest) (now : Z)
    : Response * Store :=
  match findById (req_roomId req) (rooms st) with
  | None => (RoomNotFound, st)
  | Some meetingRoom =>
      if req_participants req >? capacity meetingRoom
      then (CapacityExceeded, st)
      else
        let overlappingBookings :=
          findOverlapping (req_roomId req) (req_startTime req) (req_endTime req)
            (bookings st) in
        if (0 <? length overlappingBookings)%nat
        then (SlotConflict, st)
        else
          let newBooking := newBookingOf req in
          let st := saveBooking newBooking st in
          let st := saveRoom (_id meetingRoom) now st in
          (Booked newBooking, st)
  end.

(** A sequence of calls, each one finished before the next starts. *)
Fixpoint bookAll (st : Store) (calls : list (BookingRequest * Z))
    : list Response * Store :=
  match calls with
  | [] => ([], st)
  | (req, now) :: rest =>
      let '(resp, st) := bookMeetingRoom st req now in
      let '(resps, st) := bookAll st rest in
      (resp :: resps, st)
  end.

(** *** Handlers interleaved at their [await]s

    The handler is an [async] function: it runs without interruption up to an
    [await], the awaited database operation is one atomic action of the
    database, and other handlers may run in between.  A handler's state names
    the operation it is waiting for and holds its local variables. *)
Inductive Handler :=
| AwaitFindById (req : BookingRequest) (now : Z)
| AwaitFindOverlapping (req : BookingRequest) (now : Z) (meetingRoom : MeetingRoom)
| AwaitSaveBooking (req : BookingRequest) (now : Z) (meetingRoom : MeetingRoom)
    (newBooking : Booking)
| AwaitSaveRoom (now : Z) (meetingRoom : MeetingRoom) (newBooking : Booking)
| Responded (resp : Response).

(** The awaited operation is performed on the store and the handler runs on
    to its next [await] or to its response. *)
Definition stepHandler (st : Store) (h : Handler) : Store * Handler :=
  match h with
  | AwaitFindById req now =>
      match findById (req_roomId req) (rooms st) with
      | None => (st, Responded RoomNotFound)
      | Some meetingRoom =>
          if req_participants req >? capacity meetingRoom
          then (st, Responded CapacityExceeded)
          else (st, AwaitFindOverlapping req now meetingRoom)
      end
  | AwaitFindOverlapping req now meetingRoom =>
      let overlappingBookings :=
        findOverlapping (req_roomId req) (req_startTime req) (req_endTime req)
          (bookings st) in
      if (0 <? length overlappingBookings)%nat
      then (st, Responded SlotConflict)
      else (st, AwaitSaveBooking req now meetingRoom (newBookingOf req))
  | AwaitSaveBooking req now meetingRoom newBooking =>
      (saveBooking newBooking st, AwaitSaveRoom now meetingRoom newBooking)
  | AwaitSaveRoom now meetingRoom newBooking =>
      (saveRoom (_id meetingRoom) now st, Responded (Booked newBooking))
  | Responded resp => (st, Responded resp)
  end.

(** The server: the store and the handlers in flight.  A schedule lists, in
    order, which handler's awaited operation completes next. *)
Definition stepServer (sys : Store * list Handler) (i : nat) : Store * list Handler :=
  let '(st, hs) := sys in
  match hs !! i with
  | None => (st, hs)
  | Some h => let '(st', h') := stepHandler st h in (st', <[i := h']> hs)
  end.

Definition runServer (sys : Store * list Handler) (schedule : list nat)
    : Store * list Handler :=
  fold_left stepServer schedule sys.

(** The three rejections of a booking call. *)
Definition rejected (resp : Response) : Prop :=
  resp = RoomNotFound \/ resp = CapacityExceeded \/ resp = SlotConflict.

(** *** The half-open overlap predicate *)

(** Modelled from the spec (section 4.1): two intervals [(start, end)]
    overlap iff [a.start < b.end AND b.start < a.end]. *)
Definition overlaps (a b : Z * Z) : bool :=
  (fst a <? snd b) && (fst b <? snd a).

Definition interval (b : Booking) : Z * Z := (startTime b, endTime b).

Definition requested (req : BookingRequest) : Z * Z :=
  (req_startTime req, req_endTime req).

(** The committed bookings of one room. *)
Definition bookingsFor (roomId : N) (st : Store) : list Booking :=
  List.filter (fun b => (meetingRoom b =? roomId)%N) (bookings st).

(** No two distinct bookings of the list overlap. *)
Definition nonOverlapping (l : list Booking) : Prop :=
  forall (i j : nat) (a b : Booking),
    i <> j -> l !! i = Some a -> l !! j = Some b ->
    overlaps (interval a) (interval b) = false.

End Rooms.

(** ** Concrete layouts, rooms and requests used in the examples below *)

Module Examples.
Import Layout Rooms.

Definition layoutV1at5 : gmap string LayoutElement :=
  {[ "k1"%string := mkElement "v1" 5 ]}.
Definition layoutV2at5 : gmap string LayoutElement :=
  {[ "k1"%string := mkElement "v2" 5 ]}.
Definition layoutV2at7 : gmap string LayoutElement :=
  {[ "k1"%string := mkElement "v2" 7 ]}.

(** Two never-booked rooms of capacity 4 and one of capacity 6; the room
    with the larger identity is scanned first. *)
Definition roomA : MeetingRoom := mkRoom 1 4 None.
Definition roomB : MeetingRoom := mkRoom 2 4 None.
Definition roomC : MeetingRoom := mkRoom 3 6 None.

Definition emptyFloor : Store := mkStore [roomB; roomA; roomC] [].

(** Room 1 with one committed booking from minute 600 to minute 660. *)
Definition morning : Booking := mkBooking 1 "ann" 2 600 660.
Definition busyFloor : Store := mkStore [roomA; roomC] [morning].

Definition backToBack : BookingRequest := mkRequest 1 "bob" 3 660 690.
Definition inside : BookingRequest := mkRequest 1 "bob" 3 630 645.
Definition tooMany : BookingRequest := mkRequest 1 "bob" 6 700 730.
Definition unknownRoom : BookingRequest := mkRequest 9 "bob" 3 700 730.
Definition firstCall : BookingRequest := mkRequest 1 "ann" 2 600 660.

Definition freeFloor : Store := mkStore [roomA; roomC] [].

End Examples.

(** ** The booking service with a [booked] flag *)

Module RoomService.

(** Modelled from the spec: the schema [models/MeetingRoom.js] is not part of
    the sources; the record carries the fields [services/meetingRoomService.js]
    reads and writes. *)
Record MeetingRoom := mkRoom {
  _id : N;
  capacity : Z;
  booked : bool;
  bookedBy : option string;
  bookedAt : option Z
}.

#[global] Instance MeetingRoom_eq_dec : EqDecision MeetingRoom.
Proof. solve_decision. Defined.

(** The [requirements] argument: [requirements.capacity] and
    [requirements.userId]. *)
Record Requirements := mkRequirements {
  req_capacity : Z;
  userId : string
}.

(** [.sort({ capacity: 1 })], modelled as for the controller by a stable
    insertion sort. *)
Fixpoint insertByCapacity (r : MeetingRoom) (sorted : list MeetingRoom)
    : list MeetingRoom :=
  match sorted with
  | [] => [r]
  | x :: rest =>
      if capacity r <=? capacity x then r :: x :: rest
      else x :: insertByCapacity r rest
  end.

Fixpoint sortByCapacity (l : list MeetingRoom) : list MeetingRoom :=
  match l with
  | [] => []
  | r :: rest => insertByCapacity r (sortByCapacity rest)
  end.

(** [MeetingRoom.find({ booked: false, capacity: { $gte: requirements.capacity } })
    .sort({ capacity: 1 })]. *)
Definition findAvailable (requirements : Requirements) (l : list MeetingRoom)
    : list MeetingRoom :=
  sortByCapacity
    (List.filter
       (fun r => negb (booked r) && (capacity r >=? req_capacity requirements)) l).

(** [room.booked = true; room.bookedBy = requirements.userId;
    room.bookedAt = new Date()]. *)
Definition markBooked (requirements : Requirements) (now : Z) (room : MeetingRoom)
    : MeetingRoom :=
  {| _id := _id room; capacity := capacity room;
     booked := true; bookedBy := Some (userId requirements);
     bookedAt := Some now |}.

(** [room.save()]: the three modified paths are written to the stored
    document with the room's [_id]. *)
Definition saveRoom (room : MeetingRoom) (l : list MeetingRoom) : list MeetingRoom :=
  map (fun r =>
         if (_id r =? _id room)%N
         then {| _id := _id r; capacity := capacity r;
                 booked := booked room; bookedBy := bookedBy room;
                 bookedAt := bookedAt room |}
         else r) l.

(** What a call of the service gives its caller: the room it returns, or the
    error it throws. *)
Inductive Outcome :=
| Returned (room : MeetingRoom)
| Threw (message : string).

Definition bookMeetingRoom (l : list MeetingRoom) (requirements : Requirements)
    (now : Z) : Outcome * list MeetingRoom :=
  let availableRooms := findAvailable requirements l in
  match availableRooms with
  | [] => (Threw "No available rooms", l)
  | room :: _ =>
      let room := markBooked requirements now room in
      (Returned room, saveRoom room l)
  end.

Definition suggestMeetingRoom (l : list MeetingRoom) (requirements : Requirements)
    : option MeetingRoom :=
  let availableRooms := findAvailable requirements l in
  match availableRooms with
  | [] => None
  | room :: _ => Some room
  end.

(** A sequence of calls of [bookMeetingRoom], each finished before the next
    starts. *)
Fixpoint bookEach (l : list MeetingRoom) (calls : list (Requirements * Z))
    : list Outcome * list MeetingRoom :=
  match calls with
  | [] => ([], l)
  | (requirements, now) :: rest =>
      let '(out, l) := bookMeetingRoom l requirements now in
      let '(outs, l) := bookEach l rest in
      (out :: outs, l)
  end.

(** The identities of the rooms returned by a sequence of calls. *)
Fixpoint returnedIds (outs : list Outcome) : list N :=
  match outs with
  | [] => []
  | Returned room :: rest => _id room :: returnedIds rest
  | Threw _ :: rest => returnedIds rest
  end.

(** The rooms of the collection that are not booked. *)
Definition freeRooms (l : list MeetingRoom) : list MeetingRoom :=
  List.filter (fun r => negb (booked r)) l.

End RoomService.

(** ** Login and signup *)

Module Auth.

(** The [role] enum of [models/User.js]. *)
Inductive Role := role_admin | role_user.

(** [models/User.js]: [username] and [password] are required strings, [role]
    defaults to ['user']. *)
Record User := mkUser {
  username : string;
  password : string;
  role : Role
}.

(** The payload [{ username, role }] given to [jwt.sign]. *)
Record Payload := mkPayload {
  payload_username : string;
  payload_role : Role
}.

(** A token is modelled by the payload and the secret it is signed with. *)
Record Token := mkToken {
  token_payload : Payload;
  token_key : string
}.

(** [jwt.sign(payload, secretOrPrivateKey)]: a missing or empty secret makes
    it throw "secretOrPrivateKey must have a value".  The secret is
    [process.env.JWT_SECRET], absent when the variable is not set. *)
Definition sign (payload : Payload) (secretOrPrivateKey : option string)
    : option Token :=
  match secretOrPrivateKey with
  | Some key => if String.eqb key "" then None else Some (mkToken payload key)
  | None => None
  end.

#[global] Instance Role_eq_dec : EqDecision Role.
Proof. solve_decision. Defined.
#[global] Instance User_eq_dec : EqDecision User.
Proof. solve_decision. Defined.

(** The responses of the two handlers: 200 with the token, 401, 409, 201 with
    the new user, and the 500 of the [catch] branch. *)
Inductive Response :=
| LoginSuccessful (token : Token)
| InvalidCredentials
| UsernameExists
| SignupSuccessful (newUser : User)
| ErrorOccurred.

(** [User.findOne({ username, password })]. *)
Definition findOneByCredentials (username' password' : string) (users : list User)
    : option User :=
  List.find
    (fun u => String.eqb (username u) username' && String.eqb (password u) password')
    users.

(** [User.findOne({ username })]. *)
Definition findOneByUsername (username' : string) (users : list User) : option User :=
  List.find (fun u => String.eqb (username u) username') users.

(** [login]; an error thrown inside the [try] is answered by the [catch]
    branch with status 500. *)
Definition login (passKey : option string) (users : list User)
    (username' password' : string) : Response :=
  let user := findOneByCredentials username' password' users in
  match user with
  | Some _ =>
      let payload :=
        {| payload_username := username';
           payload_role := match user with
                           | Some _ => role_user
                           | None => role_admin
                           end |} in
      match sign payload passKey with
      | Some token => LoginSuccessful token
      | None => ErrorOccurred
      end
  | None => InvalidCredentials
  end.

(** The [required: true] validator of a string path rejects the empty
    string. *)
Definition required (s : string) : bool := negb (String.eqb s "").

(** [newUser.save()]: validation of the required paths, then the document is
    appended to the collection; a failed validation throws. *)
Definition saveUser (newUser : User) (users : list User) : option (list User) :=
  if required (username newUser) && required (password newUser)
  then Some (users ++ [newUser])
  else None.

Definition signup (users : list User) (username' password' : string)
    : Response * list User :=
  let existingUser := findOneByUsername username' users in
  match existingUser with
  | Some _ => (UsernameExists, users)
  | None =>
      let newUser :=
        {| username := username'; password := password'; role := role_user |} in
      match saveUser newUser users with
      | Some users' => (SignupSuccessful newUser, users')
      | None => (ErrorOccurred, users)
      end
  end.

(** The collection as [save] keeps it: required paths are non-empty and no
    two users share a username. *)
Definition wellFormed (users : list User) : Prop :=
  Forall (fun u => required (username u) = true /\ required (password u) = true) users
  /\ NoDup (map username users).

End Auth.

(** ** Notions used to state properties of sequences of booking calls *)

Module Calls.
Import Rooms.

(** Every committed booking names a stored room and fits its capacity. *)
Definition withinCapacity (st : Store) : Prop :=
  forall b, In b (bookings st) ->
    exists room, findById (meetingRoom b) (rooms st) = Some room
                 /\ participants b <= capacity room.

(** The bookings answered with status 201, in the order of the answers. *)
Fixpoint bookedOf (resps : list Response) : list Booking :=
  match resps with
  | [] => []
  | Booked b :: rest => b :: bookedOf rest
  | _ :: rest => bookedOf rest
  end.

(** The handlers of a list of calls, as they enter the server. *)
Definition incoming (calls : list (BookingRequest * Z)) : list Handler :=
  map (fun c => AwaitFindById c.1 c.2) calls.

(** The schedule that runs handlers [first], [first + 1], ... one after the
    other, each through its four awaits. *)
Fixpoint inSequence (first count : nat) : list nat :=
  match count with
  | O => []
  | S count => [first; first; first; first] ++ inSequence (S first) count
  end.

(** A handler has answered with booking [b], or has stored it and is about to
    answer. *)
Definition hasStored (h : Handler) (b : Booking) : Prop :=
  match h with
  | AwaitSaveRoom _ _ newBooking => newBooking = b
  | Responded (Booked newBooking) => newBooking = b
  | _ => False
  end.

(** The request names a stored room that is large enough for it. *)
Definition fitsRoom (st : Store) (req : BookingRequest) : Prop :=
  exists room, findById (req_roomId req) (rooms st) = Some room
               /\ req_participants req <= capacity room.

(** What a handler past its capacity test knows about its request. *)
Definition pastCapacityTest (st : Store) (h : Handler) : Prop :=
  match h with
  | AwaitFindOverlapping req _ _ => fitsRoom st req
  | AwaitSaveBooking req _ _ newBooking =>
      fitsRoom st req /\ newBooking = newBookingOf req
  | _ => True
  end.

End Calls.

(** ** Further concrete data for the examples *)

Module MoreExamples.

Definition smallFree : RoomService.MeetingRoom := RoomService.mkRoom 1 4 false None None.
Definition largeFree : RoomService.MeetingRoom := RoomService.mkRoom 2 6 false None None.
Definition smallTaken : RoomService.MeetingRoom :=
  RoomService.mkRoom 3 4 true (Some "ann"%string) (Some 900).
Definition office : list RoomService.MeetingRoom := [largeFree; smallTaken; smallFree].
Definition threeSeats : RoomService.Requirements := RoomService.mkRequirements 3 "bob".

Definition sevenSeats : RoomService.Requirements := RoomService.mkRequirements 7 "bob".

Definition ann : Auth.User := Auth.mkUser "ann" "secret" Auth.role_admin.
Definition staff : list Auth.User := [ann].

(** Two rooms of capacity 4, the first one booked before, and a larger
    room. *)
Definition usedRoom : Rooms.MeetingRoom := Rooms.mkRoom 1 4 (Some 50).
Definition usedFloor : Rooms.Store :=
  Rooms.mkStore [usedRoom; Examples.roomB; Examples.roomC] [].
Definition otherRoomCall : Rooms.BookingRequest := Rooms.mkRequest 3 "cid" 5 600 660.
Definition suggestedCall : Rooms.BookingRequest := Rooms.mkRequest 2 "bob" 3 600 660.
Definition twoCalls : list (Rooms.BookingRequest * Z) :=
  [(Examples.firstCall, 1000); (Examples.inside, 1001)].

End MoreExamples.

(** * Properties of the layout merge *)

Section LayoutMerge.
Import Layout Examples.

Implicit Types (A B local remote : gmap string LayoutElement) (k : string).

(** The fold over the entries of [newLayout] decides every key on its own. *)
Lemma resolveConflicts_lookup (existingLayout newLayout : gmap string LayoutElement) k :
  resolveConflicts existingLayout newLayout !! k
  = pick (inheritedName k) (existingLayout !! k) (newLayout !! k).
Proof.
  unfold resolveConflicts.
  apply (map_fold_weak_ind
           (fun (r m : gmap string LayoutElement) =>
              r !! k = pick (inheritedName k) (existingLayout !! k) (m !! k))).
  - rewrite lookup_empty. unfold pick. by destruct (existingLayout !! k).
  - intros i x m r Hfresh IH. unfold resolveEntry, getProperty.
    destruct (decide (i = k)) as [->|Hne].
    + rewrite lookup_insert_eq. rewrite Hfresh in IH.
      destruct (existingLayout !! k) as [e|] eqn:He; simpl in *.
      * destruct (timestamp x >? timestamp e); [by rewrite lookup_insert_eq | done].
      * destruct (inheritedName k); [done | by rewrite lookup_insert_eq].
    + rewrite (lookup_insert_ne m i k x Hne).
      destruct (existingLayout !! i) as [e|].
      * destruct (timestamp x >? timestamp e);
          [by rewrite lookup_insert_ne | done].
      * destruct (inheritedName i); [done | by rewrite lookup_insert_ne].
Qed.

Lemma pick_tie (inherited : bool) (a b : LayoutElement) :
  timestamp a = timestamp b -> pick inherited (Some a) (Some b) = Some a.
Proof.
  intros Heq. simpl. rewrite Heq.
  by rewrite Z.gtb_ltb, Z.ltb_irrefl.
Qed.

Lemma pick_comm (inherited : bool) (x y : option LayoutElement) :
  (forall a b, x = Some a -> y = Some b -> timestamp a = timestamp b -> a = b) ->
  (inherited = true -> (x = None <-> y = None)) ->
  pick inherited x y = pick inherited y x.
Proof.
  intros Htie Hsame. destruct x as [a|], y as [b|]; simpl; try done.
  - rewrite !Z.gtb_ltb.
    destruct (Z.ltb_spec (timestamp a) (timestamp b)),
             (Z.ltb_spec (timestamp b) (timestamp a)); try done; try lia.
    f_equal. apply Htie; [done | done | lia].
  - destruct inherited; [|done]. by destruct (proj2 (Hsame eq_refl) eq_refl).
  - destruct inherited; [|done]. by destruct (proj1 (Hsame eq_refl) eq_refl).
Qed.

(** C2, as the code has it: for every key, [resolveConflicts local remote]
    holds the element of [local] when only [local] has the key, the element
    of [remote] when only [remote] has the key and the key does not name a
    member of [Object.prototype], the element with the strictly larger
    timestamp when both have it with different timestamps, and the element
    of [local] (the existing layout) when the two timestamps are equal; it
    holds nothing at a key neither layout has. *)
Theorem resolveConflicts_per_key local remote k :
  (forall a, local !! k = Some a -> remote !! k = None ->
     resolveConflicts local remote !! k = Some a) /\
  (forall b, local !! k = None -> remote !! k = Some b ->
     inheritedName k = false ->
     resolveConflicts local remote !! k = Some b) /\
  (forall a b, local !! k = Some a -> remote !! k = Some b ->
     timestamp a < timestamp b ->
     resolveConflicts local remote !! k = Some b) /\
  (forall a b, local !! k = Some a -> remote !! k = Some b ->
     timestamp b < timestamp a ->
     resolveConflicts local remote !! k = Some a) /\
  (forall a b, local !! k = Some a -> remote !! k = Some b ->
     timestamp a = timestamp b ->
     resolveConflicts local remote !! k = Some a) /\
  (local !! k = None -> remote !! k = None ->
     resolveConflicts local remote !! k = None).
Proof.
  rewrite resolveConflicts_lookup.
  repeat split.
  - by intros a -> ->.
  - by intros b -> -> ->.
  - intros a b -> -> Hlt. simpl. rewrite Z.gtb_ltb.
    by destruct (Z.ltb_spec (timestamp a) (timestamp b)); [|lia].
  - intros a b -> -> Hlt. simpl. rewrite Z.gtb_ltb.
    by destruct (Z.ltb_spec (timestamp a) (timestamp b)); [lia|].
  - intros a b -> -> Heq. by apply pick_tie.
  - by intros -> ->.
Qed.

(** C2 fails as stated: on a tie the merge keeps the element of [local], not
    the one of [remote]. *)
Lemma resolveConflicts_tie_keeps_local :
  timestamp (mkElement "v1" 5) = timestamp (mkElement "v2" 5)
  /\ layoutV1at5 !! "k1"%string = Some (mkElement "v1" 5)
  /\ layoutV2at5 !! "k1"%string = Some (mkElement "v2" 5)
  /\ resolveConflicts layoutV1at5 layoutV2at5 !! "k1"%string
     = Some (mkElement "v1" 5)
  /\ resolveConflicts layoutV1at5 layoutV2at5 !! "k1"%string
     <> layoutV2at5 !! "k1"%string.
Proof.
  rewrite resolveConflicts_lookup. unfold layoutV1at5, layoutV2at5.
  rewrite !lookup_singleton_eq. simpl. repeat split; congruence.
Qed.

(** C3 fails as stated: two layouts that hold different values with the same
    timestamp at one key merge to different layouts in the two orders. *)
Lemma resolveConflicts_not_commutative :
  resolveConflicts layoutV1at5 layoutV2at5
  <> resolveConflicts layoutV2at5 layoutV1at5.
Proof.
  intros Heq.
  assert (Hk : resolveConflicts layoutV1at5 layoutV2at5 !! "k1"%string
               = resolveConflicts layoutV2at5 layoutV1at5 !! "k1"%string)
    by (by rewrite Heq).
  rewrite !resolveConflicts_lookup in Hk. unfold layoutV1at5, layoutV2at5 in Hk.
  rewrite !lookup_singleton_eq in Hk. simpl in Hk. congruence.
Qed.

(** C3, as the code has it: the merge of two layouts is the same in both
    argument orders whenever the layouts hold the same element at every key
    where both hold an element with the same timestamp, and every key that
    names a member of [Object.prototype] is held by both or by neither; at a
    key where both hold an element with the same timestamp, each order
    keeps the element of its first argument. *)
Theorem resolveConflicts_comm A B :
  (tieFree A B -> sameInheritedKeys A B ->
     resolveConflicts A B = resolveConflicts B A)
  /\ (forall k a b, A !! k = Some a -> B !! k = Some b ->
        timestamp a = timestamp b ->
        resolveConflicts A B !! k = Some a /\ resolveConflicts B A !! k = Some b).
Proof.
  split.
  - intros Htie Hsame. apply map_eq. intros k.
    rewrite !resolveConflicts_lookup. apply pick_comm.
    + intros a b Ha Hb. by apply (Htie k).
    + intros Hk. by apply Hsame.
  - intros k a b Ha Hb Hts. rewrite !resolveConflicts_lookup, Ha, Hb.
    split; by apply pick_tie.
Qed.

(** The two conditions are also necessary: layouts whose merges agree in
    both orders agree on ties and on the keys that name inherited members. *)
Lemma resolveConflicts_comm_necessary A B :
  resolveConflicts A B = resolveConflicts B A ->
  tieFree A B /\ sameInheritedKeys A B.
Proof.
  intros Heq.
  assert (Hk : forall k, pick (inheritedName k) (A !! k) (B !! k)
                         = pick (inheritedName k) (B !! k) (A !! k)).
  { intros k. by rewrite <- !resolveConflicts_lookup, Heq. }
  split.
  - intros k a b Ha Hb Hts. specialize (Hk k). rewrite Ha, Hb in Hk.
    rewrite (pick_tie _ a b Hts), (pick_tie _ b a (eq_sym Hts)) in Hk. congruence.
  - intros k Hin. specialize (Hk k). rewrite Hin in Hk.
    destruct (A !! k) as [a|], (B !! k) as [b|]; simpl in Hk; try done.
Qed.

(** C9: merging a layout with itself gives the layout back. *)
Theorem resolveConflicts_idemp A : resolveConflicts A A = A.
Proof.
  apply map_eq. intros k. rewrite resolveConflicts_lookup.
  destruct (A !! k) as [a|]; [|done]. by apply pick_tie.
Qed.

Lemma resolveConflicts_per_key_witness :
  resolveConflicts layoutV1at5 layoutV2at7 !! "k1"%string
  = Some (mkElement "v2" 7).
Proof.
  apply (proj1 (proj2 (proj2
           (resolveConflicts_per_key layoutV1at5 layoutV2at7 "k1"%string)))
           (mkElement "v1" 5) (mkElement "v2" 7)).
  - apply lookup_singleton_eq.
  - apply lookup_singleton_eq.
  - simpl. lia.
Defined.

Lemma layouts_tieFree : tieFree layoutV1at5 layoutV2at7.
Proof.
  intros k a b Ha Hb. unfold layoutV1at5, layoutV2at7 in Ha, Hb.
  apply lookup_singleton_Some in Ha as [_ <-].
  apply lookup_singleton_Some in Hb as [_ <-]. simpl. lia.
Defined.

Lemma layouts_sameInheritedKeys : sameInheritedKeys layoutV1at5 layoutV2at7.
Proof.
  intros k Hk. unfold layoutV1at5, layoutV2at7.
  destruct (decide (k = "k1"%string)) as [->|Hne]; [discriminate Hk|].
  by rewrite !lookup_singleton_ne.
Defined.

Lemma resolveConflicts_comm_witness :
  tieFree layoutV1at5 layoutV2at7 /\ sameInheritedKeys layoutV1at5 layoutV2at7
  /\ resolveConflicts layoutV1at5 layoutV2at7
     = resolveConflicts layoutV2at7 layoutV1at5.
Proof.
  split; [exact layouts_tieFree|]. split; [exact layouts_sameInheritedKeys|].
  exact (proj1 (resolveConflicts_comm layoutV1at5 layoutV2at7)
           layouts_tieFree layouts_sameInheritedKeys).
Defined.

End LayoutMerge.

(** * Properties of room suggestion *)

Section Suggestion.
Import Rooms.

Implicit Types (r x y : MeetingRoom) (l : list MeetingRoom) (st : Store).

Lemma sortKey_ltb_capacity r x : sortKey_ltb r x = true -> capacity r <= capacity x.
Proof.
  unfold sortKey_ltb. intros H.
  apply orb_true_iff in H as [H|H]; [lia|].
  apply andb_true_iff in H as [H _]. lia.
Qed.

Lemma sortKey_leb_capacity r x : sortKey_leb r x = true -> capacity r <= capacity x.
Proof.
  unfold sortKey_leb, sortKey_ltb. intros H.
  apply negb_true_iff, orb_false_iff in H as [H _]. lia.
Qed.

Lemma sortKey_leb_refl r : sortKey_leb r r = true.
Proof.
  unfold sortKey_leb, sortKey_ltb.
  rewrite Z.ltb_irrefl, Z.eqb_refl. simpl.
  destruct (lastBooked r); simpl; [by rewrite Z.ltb_irrefl | done].
Qed.

Lemma sortKey_ltb_leb r x : sortKey_ltb r x = true -> sortKey_leb r x = true.
Proof.
  unfold sortKey_leb, sortKey_ltb. intros H.
  apply negb_true_iff, orb_false_iff.
  apply orb_true_iff in H as [H|H].
  - split; [lia|]. apply andb_false_iff. left. lia.
  - apply andb_true_iff in H as [Hc Hl]. split; [lia|].
    apply andb_false_iff. right.
    destruct (lastBooked r), (lastBooked x); simpl in *; try done. lia.
Qed.

Lemma sortKey_total r x : sortKey_leb r x = false -> sortKey_ltb x r = true.
Proof. unfold sortKey_leb. by intros H%negb_false_iff. Qed.

Lemma sortKey_leb_trans r x y :
  sortKey_leb r x = true -> sortKey_leb x y = true -> sortKey_leb r y = true.
Proof.
  unfold sortKey_leb, sortKey_ltb. intros H1 H2.
  apply negb_true_iff, orb_false_iff in H1 as [Hc1 Hl1].
  apply negb_true_iff, orb_false_iff in H2 as [Hc2 Hl2].
  apply negb_true_iff, orb_false_iff.
  split; [lia|]. apply andb_false_iff.
  destruct (Z.eqb_spec (capacity y) (capacity r)) as [Heq|Hne]; [right | by left].
  apply andb_false_iff in Hl1 as [Hl1|Hl1]; [lia|].
  apply andb_false_iff in Hl2 as [Hl2|Hl2]; [lia|].
  destruct (lastBooked r), (lastBooked x), (lastBooked y); simpl in *;
    try done; lia.
Qed.

Lemma sortRooms_nil l : sortRooms l = [] -> l = [].
Proof.
  destruct l as [|x l]; [done|]. simpl.
  destruct (sortRooms l) as [|y ys]; simpl; [done|].
  by destruct (sortKey_leb x y).
Qed.

(** The head of the sorted list is the first room of the input that no other
    room precedes: every room scanned before it is strictly after it in the
    sort order, every room scanned later is not before it. *)
Lemma sortRooms_head l r rest :
  sortRooms l = r :: rest ->
  exists l1 l2, l = l1 ++ r :: l2
    /\ Forall (fun x => sortKey_ltb r x = true) l1
    /\ Forall (fun x => sortKey_leb r x = true) l2.
Proof.
  revert r rest. induction l as [|x l IH]; intros r rest Hs; [done|].
  simpl in Hs. destruct (sortRooms l) as [|y ys] eqn:Hl.
  - apply sortRooms_nil in Hl as ->. simpl in Hs. injection Hs as <- <-.
    exists [], []. by repeat split.
  - destruct (IH y ys eq_refl) as (l1 & l2 & -> & H1 & H2).
    simpl in Hs. destruct (sortKey_leb x y) eqn:Hxy.
    + injection Hs as <- <-. exists [], (l1 ++ y :: l2).
      repeat split; [done|].
      apply Forall_app. split; [|apply Forall_cons; split; [done|]].
      * eapply Forall_impl; [exact H1|]. simpl. intros z Hz.
        eapply sortKey_leb_trans; [exact Hxy | by apply sortKey_ltb_leb].
      * eapply Forall_impl; [exact H2|]. simpl. intros z Hz.
        by eapply sortKey_leb_trans.
    + injection Hs as <- <-. exists (x :: l1), l2.
      repeat split; [|done].
      apply Forall_cons. split; [by apply sortKey_total | done].
Qed.

Lemma findByCapacity_In participants l r :
  In r (findByCapacity participants l) <-> In r l /\ participants <= capacity r.
Proof.
  unfold findByCapacity. rewrite filter_In.
  split; intros [? ?]; (split; [done | lia]).
Qed.

(** C5: the suggestion is 404 when no room has capacity at least
    [participants]; otherwise it is a stored room with capacity at least
    [participants] whose capacity no other sufficient room undercuts. *)
Theorem suggestMeetingRoom_best_fit st participants :
  ((forall r, In r (rooms st) -> capacity r < participants) ->
     suggestMeetingRoom st participants = NoSuitableRoom)
  /\ ((exists r, In r (rooms st) /\ participants <= capacity r) ->
      exists r, suggestMeetingRoom st participants = Suggested r
        /\ In r (rooms st) /\ participants <= capacity r
        /\ forall r', In r' (rooms st) -> participants <= capacity r' ->
             capacity r <= capacity r').
Proof.
  unfold suggestMeetingRoom.
  destruct (sortRooms (findByCapacity participants (rooms st)))
    as [|r rest] eqn:Hs.
  - split; [done|].
    intros (r & Hin & Hcap). apply sortRooms_nil in Hs.
    assert (Hr : In r (findByCapacity participants (rooms st)))
      by (by apply findByCapacity_In).
    rewrite Hs in Hr. destruct Hr.
  - destruct (sortRooms_head _ _ _ Hs) as (l1 & l2 & Hsplit & H1 & H2).
    assert (Hr : In r (rooms st) /\ participants <= capacity r).
    { apply findByCapacity_In. rewrite Hsplit. apply in_or_app. right. by left. }
    split.
    + intros Hnone. destruct Hr as [Hin Hcap]. specialize (Hnone r Hin). lia.
    + intros _. exists r. destruct Hr as [Hin Hcap]. repeat split; try done.
      intros r' Hin' Hcap'.
      assert (Hr' : In r' (findByCapacity participants (rooms st)))
        by (by apply findByCapacity_In).
      rewrite Hsplit in Hr'. apply in_app_or in Hr' as [Hr'|[<-|Hr']].
      * rewrite Forall_forall in H1. apply sortKey_ltb_capacity, H1.
        by apply list_elem_of_In.
      * lia.
      * rewrite Forall_forall in H2. apply sortKey_leb_capacity, H2.
        by apply list_elem_of_In.
Qed.

Lemma insertRoom_perm r l : insertRoom r l ≡ₚ r :: l.
Proof.
  induction l as [|x l IH]; [done|]. simpl.
  destruct (sortKey_leb r x); [done|].
  rewrite IH. apply perm_swap.
Qed.

Lemma insertRoom_sorted r l :
  StronglySorted (fun a b => sortKey_leb a b = true) l ->
  StronglySorted (fun a b => sortKey_leb a b = true) (insertRoom r l).
Proof.
  induction 1 as [|x l Hl IH Hx]; simpl.
  - by repeat constructor.
  - destruct (sortKey_leb r x) eqn:Hrx.
    + constructor; [by constructor|].
      constructor; [done|].
      eapply Forall_impl; [exact Hx|]. simpl. intros z Hz.
      by eapply sortKey_leb_trans.
    + constructor; [done|].
      rewrite (insertRoom_perm r l). constructor; [|done].
      by apply sortKey_ltb_leb, sortKey_total.
Qed.

(** The stable insertion sort is one of the sorts the database may use. *)
Lemma sortRooms_admissible : admissibleSort sortRooms.
Proof.
  intros l. induction l as [|r l [IHp IHs]]; simpl.
  - split; [done | constructor].
  - split.
    + by rewrite insertRoom_perm, IHp.
    + by apply insertRoom_sorted.
Qed.

Lemma sortPreferring_admissible r : admissibleSort (sortPreferring r).
Proof.
  intros l. unfold sortPreferring.
  destruct (list_find (fun x => x = r) l) as [[i x]|] eqn:Hf.
  - apply list_find_Some in Hf as (Hi & -> & _).
    destruct (sortRooms_admissible (r :: delete i l)) as [Hp Hs].
    split; [|done]. rewrite Hp. symmetry. by apply delete_Permutation.
  - apply sortRooms_admissible.
Qed.

Lemma sortPreferring_head r l :
  In r l -> (forall x, In x l -> sortKey_leb r x = true) ->
  exists rest, sortPreferring r l = r :: rest.
Proof.
  intros Hin Hmin. unfold sortPreferring.
  destruct (list_find (fun x => x = r) l) as [[i x]|] eqn:Hf.
  2: { apply list_find_None in Hf. rewrite Forall_forall in Hf.
       destruct (Hf r); [by apply list_elem_of_In | done]. }
  apply list_find_Some in Hf as (Hi & -> & _).
  pose proof (delete_Permutation l i r Hi) as Hperm.
  simpl. destruct (sortRooms (delete i l)) as [|y ys] eqn:Hs; simpl; [by eauto|].
  assert (Hy : In y l).
  { apply list_elem_of_In. rewrite Hperm. right.
    destruct (sortRooms_admissible (delete i l)) as [Hp _].
    rewrite <- Hp, Hs. by left. }
  rewrite (Hmin y Hy). by eauto.
Qed.

(** Whatever order the database gives to ties, the head of the sorted
    documents is one of them and none of them is before it. *)
Lemma admissibleSort_head sort l r rest :
  admissibleSort sort -> sort l = r :: rest ->
  In r l /\ forall x, In x l -> sortKey_leb r x = true.
Proof.
  intros Hsort Hs. destruct (Hsort l) as [Hp Hsorted]. rewrite Hs in Hp, Hsorted.
  split.
  - apply list_elem_of_In. rewrite <- Hp. by left.
  - intros x Hx%list_elem_of_In. rewrite <- Hp in Hx.
    apply StronglySorted_inv in Hsorted as [_ Hall].
    apply elem_of_cons in Hx as [->|Hx]; [apply sortKey_leb_refl|].
    rewrite Forall_forall in Hall. by apply Hall.
Qed.

(** Every sufficient room that no sufficient room precedes under (capacity,
    lastBooked) is suggested under some order of ties, whatever its
    identity. *)
Lemma minimal_maySuggest st participants r :
  In r (rooms st) -> participants <= capacity r ->
  (forall r', In r' (rooms st) -> participants <= capacity r' ->
     sortKey_leb r r' = true) ->
  maySuggest st participants (Suggested r).
Proof.
  intros Hin Hcap Hmin. exists (sortPreferring r).
  split; [apply sortPreferring_admissible|].
  unfold suggestWith.
  destruct (sortPreferring_head r (findByCapacity participants (rooms st)))
    as [rest ->]; [by apply findByCapacity_In | | done].
  intros x Hx%findByCapacity_In. destruct Hx. by apply Hmin.
Qed.

(** C6, as the code has it: whatever order the database gives to rooms with
    equal sort keys, the suggested room is a stored room of sufficient
    capacity that no sufficient room precedes under (capacity ascending,
    lastBooked ascending).  The sort has no identity key: the identity of a
    room plays no part. *)
Theorem suggestWith_minimal sort st participants r :
  admissibleSort sort ->
  suggestWith sort st participants = Suggested r ->
  In r (rooms st) /\ participants <= capacity r
  /\ forall r', In r' (rooms st) -> participants <= capacity r' ->
       sortKey_leb r r' = true.
Proof.
  intros Hsort. unfold suggestWith.
  destruct (sort (findByCapacity participants (rooms st)))
    as [|r0 rest] eqn:Hs; [done|].
  intros [= ->].
  destruct (admissibleSort_head _ _ _ _ Hsort Hs) as [Hin Hmin].
  apply findByCapacity_In in Hin as [Hin Hcap].
  repeat split; try done.
  intros r' Hin' Hcap'. apply Hmin. by apply findByCapacity_In.
Qed.

End Suggestion.

(** * Properties of booking *)

Section Booking.
Import Rooms Examples.

Implicit Types (st : Store) (req : BookingRequest) (b : Booking) (now : Z).

(** ** The overlap test *)

(** The first clause of the query is the half-open predicate itself, so every
    overlap is caught, whatever the intervals. *)
Lemma overlaps_slotClauses startTime' endTime' b :
  overlaps (startTime', endTime') (interval b) = true ->
  slotClauses startTime' endTime' b = true.
Proof.
  unfold overlaps, slotClauses, interval. simpl. intros H.
  apply andb_true_iff in H as [H1 H2].
  apply orb_true_iff. left. apply orb_true_iff. left.
  apply andb_true_iff. split; lia.
Qed.

(** C4, as the code has it: for a candidate and a stored booking that both
    start before they end, the three clauses of the query hold exactly when
    the two intervals overlap under the half-open predicate. *)
Theorem slotClauses_overlaps startTime' endTime' b :
  startTime' < endTime' -> startTime b < endTime b ->
  slotClauses startTime' endTime' b
  = overlaps (startTime', endTime') (interval b).
Proof.
  unfold overlaps, slotClauses, interval. simpl. intros Ha Hb.
  destruct (Z.ltb_spec (startTime b) endTime'),
           (Z.ltb_spec startTime' (endTime b)),
           (Z.gtb_spec (endTime b) startTime'),
           (Z.leb_spec (startTime b) startTime'),
           (Z.geb_spec (endTime b) endTime'),
           (Z.geb_spec (startTime b) startTime'),
           (Z.leb_spec (endTime b) endTime'); simpl; try reflexivity; lia.
Qed.

(** C4 fails as stated: an empty candidate [5, 5) against a stored booking
    [5, 10) satisfies the second clause of the query, yet the two do not
    overlap under the half-open predicate; likewise a stored booking with
    [startTime = endTime] inside a candidate satisfies the third clause. *)
Lemma slotClauses_not_overlaps :
  slotClauses 5 5 (mkBooking 1 "ann" 2 5 10) = true
  /\ overlaps (5, 5) (interval (mkBooking 1 "ann" 2 5 10)) = false
  /\ slotClauses 0 10 (mkBooking 1 "ann" 2 10 10) = true
  /\ overlaps (0, 10) (interval (mkBooking 1 "ann" 2 10 10)) = false.
Proof. repeat split; reflexivity. Qed.

(** ** What a call does to the store *)

Lemma filter_length_0 {X} (f : X -> bool) (l : list X) :
  (0 <? length (List.filter f l))%nat = false ->
  forall x, In x l -> f x = false.
Proof.
  intros Hlen x Hin. destruct (f x) eqn:Hfx; [|done].
  assert (Hx : In x (List.filter f l)) by (by apply filter_In).
  destruct (List.filter f l); [destruct Hx | done].
Qed.

(** The outcomes of a call: a rejection leaves the store as it was; a success
    appends the requested booking, found to clash with no stored booking of
    the room, and touches no other booking. *)
Lemma bookMeetingRoom_cases st req now resp st' :
  bookMeetingRoom st req now = (resp, st') ->
  (rejected resp /\ st' = st)
  \/ (resp = Booked (newBookingOf req)
      /\ bookings st' = bookings st ++ [newBookingOf req]
      /\ (exists room, findById (req_roomId req) (rooms st) = Some room
            /\ req_participants req <= capacity room
            /\ rooms st' = map (setLastBooked (_id room) now) (rooms st))
      /\ forall a, In a (bookings st) -> meetingRoom a = req_roomId req ->
           slotClauses (req_startTime req) (req_endTime req) a = false).
Proof.
  unfold bookMeetingRoom, rejected.
  destruct (findById (req_roomId req) (rooms st)) as [room|] eqn:Hroom.
  2: { intros [= <- <-]. left. auto. }
  destruct (Z.gtb_spec (req_participants req) (capacity room)) as [Hcap|Hcap].
  { intros [= <- <-]. left. auto. }
  destruct (0 <? length _)%nat eqn:Hlen.
  { intros [= <- <-]. left. auto. }
  intros [= <- <-]. right. split; [done|]. split; [done|]. split.
  - exists room. split; [done|]. split; [lia | done].
  - intros a Hin Hroom_a.
    pose proof (filter_length_0 _ _ Hlen a Hin) as Hf. simpl in Hf.
    apply andb_false_iff in Hf as [Hf|Hf]; [|done].
    apply N.eqb_neq in Hf. done.
Qed.

(** C7: a call answered with "room not found", "capacity exceeded" or "slot
    already booked" creates no booking and modifies no room: the store after
    the call is the store before it. *)
Theorem bookMeetingRoom_rejected_unchanged st req now resp st' :
  bookMeetingRoom st req now = (resp, st') -> rejected resp -> st' = st.
Proof.
  intros Hcall Hrej.
  destruct (bookMeetingRoom_cases _ _ _ _ _ Hcall) as [[_ ->]|(-> & _)]; [done|].
  destruct Hrej as [?|[?|?]]; discriminate.
Qed.

(** C10: a call naming a room that is not stored is answered "room not found"
    whatever its participant count and times, and leaves the store
    unchanged. *)
Theorem bookMeetingRoom_unknown_room st req now :
  findById (req_roomId req) (rooms st) = None ->
  bookMeetingRoom st req now = (RoomNotFound, st).
Proof. intros Hnone. unfold bookMeetingRoom. by rewrite Hnone. Qed.

(** ** The non-overlap invariant *)

Lemma overlaps_sym (a b : Z * Z) : overlaps a b = overlaps b a.
Proof. unfold overlaps. apply andb_comm. Qed.

Lemma nonOverlapping_snoc (l : list Booking) b :
  nonOverlapping l ->
  (forall a, In a l -> overlaps (interval b) (interval a) = false) ->
  nonOverlapping (l ++ [b]).
Proof.
  intros Hl Hb i j x y Hij Hi Hj.
  apply lookup_app_Some in Hi as [Hi|[Hli Hi]];
    apply lookup_app_Some in Hj as [Hj|[Hlj Hj]].
  - by eapply Hl.
  - apply list_lookup_singleton_Some in Hj as [_ <-].
    rewrite overlaps_sym. apply Hb, list_elem_of_In.
    by eapply list_elem_of_lookup_2.
  - apply list_lookup_singleton_Some in Hi as [_ <-].
    apply Hb, list_elem_of_In. by eapply list_elem_of_lookup_2.
  - apply list_lookup_singleton_Some in Hi as [Hi _].
    apply list_lookup_singleton_Some in Hj as [Hj _]. lia.
Qed.

Lemma bookingsFor_saved roomId st st' b :
  bookings st' = bookings st ++ [b] ->
  bookingsFor roomId st'
  = bookingsFor roomId st ++ (if (meetingRoom b =? roomId)%N then [b] else []).
Proof.
  unfold bookingsFor. intros ->. by rewrite List.filter_app.
Qed.

(** One call keeps the committed bookings of every room pairwise
    non-overlapping. *)
Lemma bookMeetingRoom_nonOverlapping roomId st req now :
  nonOverlapping (bookingsFor roomId st) ->
  nonOverlapping (bookingsFor roomId (bookMeetingRoom st req now).2).
Proof.
  intros Hinv. destruct (bookMeetingRoom st req now) as [resp st'] eqn:Hcall.
  simpl.
  destruct (bookMeetingRoom_cases _ _ _ _ _ Hcall)
    as [[_ ->]|(_ & Hbs & _ & Hfree)]; [done|].
  rewrite (bookingsFor_saved _ _ _ _ Hbs).
  destruct (N.eqb_spec (meetingRoom (newBookingOf req)) roomId) as [Heq|Hne].
  2: { by rewrite app_nil_r. }
  apply nonOverlapping_snoc; [done|].
  intros a Ha. unfold bookingsFor in Ha. apply filter_In in Ha as [Hin Hroom].
  apply N.eqb_eq in Hroom. simpl in Heq.
  specialize (Hfree a Hin ltac:(congruence)).
  destruct (overlaps (interval (newBookingOf req)) (interval a)) eqn:Hov; [|done].
  apply overlaps_slotClauses in Hov. simpl in Hov. congruence.
Qed.

(** C1: starting from a store in which the committed bookings of a room are
    pairwise non-overlapping under the half-open predicate, any sequence of
    calls run one after the other (in particular any sequence of successful
    calls) leaves the committed bookings of that room pairwise
    non-overlapping. *)
Theorem bookAll_nonOverlapping roomId (calls : list (BookingRequest * Z)) st :
  nonOverlapping (bookingsFor roomId st) ->
  nonOverlapping (bookingsFor roomId (bookAll st calls).2).
Proof.
  revert st. induction calls as [|[req now] calls IH]; intros st Hinv; [done|].
  simpl. pose proof (bookMeetingRoom_nonOverlapping roomId st req now Hinv) as H1.
  destruct (bookMeetingRoom st req now) as [resp st1]. simpl in H1.
  specialize (IH st1 H1). by destruct (bookAll st1 calls).
Qed.

(** ** Conflicting calls, one after the other and interleaved *)

Lemma findById_setLastBooked roomId i now (l : list MeetingRoom) :
  findById roomId (map (setLastBooked i now) l)
  = option_map (setLastBooked i now) (findById roomId l).
Proof.
  unfold findById. induction l as [|r l IH]; [done|]. simpl.
  assert (Hid : _id (setLastBooked i now r) = _id r).
  { unfold setLastBooked. by destruct (_id r =? i)%N. }
  rewrite Hid. by destruct (_id r =? roomId)%N.
Qed.

Lemma capacity_setLastBooked i now (r : MeetingRoom) :
  capacity (setLastBooked i now r) = capacity r.
Proof. unfold setLastBooked. by destruct (_id r =? i)%N. Qed.

(** A call for a stored room, within its capacity, whose times satisfy the
    query against a stored booking of that room, is answered "slot already
    booked". *)
Lemma bookMeetingRoom_conflict st req now room b :
  findById (req_roomId req) (rooms st) = Some room ->
  req_participants req <= capacity room ->
  In b (bookings st) -> meetingRoom b = req_roomId req ->
  slotClauses (req_startTime req) (req_endTime req) b = true ->
  bookMeetingRoom st req now = (SlotConflict, st).
Proof.
  intros Hroom Hcap Hin Hb Hq. unfold bookMeetingRoom. rewrite Hroom.
  destruct (Z.gtb_spec (req_participants req) (capacity room)); [lia|].
  destruct (0 <? length _)%nat eqn:Hlen; [done|].
  pose proof (filter_length_0 _ _ Hlen b Hin) as Hf. simpl in Hf.
  rewrite Hq, Hb, N.eqb_refl in Hf. discriminate.
Qed.

Lemma bookAll_all_conflict st room b (rest : list (BookingRequest * Z)) :
  findById (meetingRoom b) (rooms st) = Some room ->
  In b (bookings st) ->
  Forall (fun c => req_roomId c.1 = meetingRoom b
                   /\ req_participants c.1 <= capacity room
                   /\ overlaps (requested c.1) (interval b) = true) rest ->
  bookAll st rest = (map (fun _ => SlotConflict) rest, st).
Proof.
  intros Hroom Hin. induction 1 as [|[q now] rest (Hq & Hcap & Hov) _ IH]; [done|].
  simpl in *. rewrite <- Hq in Hroom.
  rewrite (bookMeetingRoom_conflict st q now room b); try done.
  - by rewrite IH.
  - by apply overlaps_slotClauses.
Qed.

(** C8, as the code has it: when calls for one stored room are run one after
    the other, the first finding its slot free and every later one asking for
    an interval that overlaps the first's (all within the room's capacity),
    the first call is answered with its booking and every later call with
    "slot already booked"; the store gains the first booking only. *)
Theorem bookAll_first_wins st req now room (rest : list (BookingRequest * Z)) :
  findById (req_roomId req) (rooms st) = Some room ->
  req_participants req <= capacity room ->
  (forall a, In a (bookings st) -> meetingRoom a = req_roomId req ->
     slotClauses (req_startTime req) (req_endTime req) a = false) ->
  Forall (fun c => req_roomId c.1 = req_roomId req
                   /\ req_participants c.1 <= capacity room
                   /\ overlaps (requested c.1) (requested req) = true) rest ->
  bookAll st ((req, now) :: rest)
  = (Booked (newBookingOf req) :: map (fun _ => SlotConflict) rest,
     saveRoom (_id room) now (saveBooking (newBookingOf req) st)).
Proof.
  intros Hroom Hcap Hfree Hrest.
  assert (Hfirst : bookMeetingRoom st req now
                   = (Booked (newBookingOf req),
                      saveRoom (_id room) now (saveBooking (newBookingOf req) st))).
  { unfold bookMeetingRoom. rewrite Hroom.
    destruct (Z.gtb_spec (req_participants req) (capacity room)); [lia|].
    destruct (0 <? length _)%nat eqn:Hlen; [|done].
    destruct (findOverlapping _ _ _ (bookings st)) as [|a l] eqn:Hf; [done|].
    assert (Ha : In a (findOverlapping (req_roomId req) (req_startTime req)
                         (req_endTime req) (bookings st))).
    { rewrite Hf. by left. }
    apply filter_In in Ha as [Hin Hq]. apply andb_true_iff in Hq as [Hr Hq].
    apply N.eqb_eq in Hr. rewrite (Hfree a Hin Hr) in Hq. discriminate. }
  cbn [bookAll]. rewrite Hfirst.
  rewrite (bookAll_all_conflict _ (setLastBooked (_id room) now room)
             (newBookingOf req) rest).
  - done.
  - simpl. by rewrite findById_setLastBooked, Hroom.
  - simpl. apply in_or_app. right. by left.
  - eapply Forall_impl; [exact Hrest|]. simpl. intros c (? & ? & ?).
    by rewrite capacity_setLastBooked.
Qed.

(** A handler scheduled four times in a row, with no other handler in
    between, does what [bookMeetingRoom] does. *)
Lemma runServer_alone st req now :
  runServer (st, [AwaitFindById req now]) [0; 0; 0; 0]%nat
  = ((bookMeetingRoom st req now).2, [Responded (bookMeetingRoom st req now).1]).
Proof.
  unfold runServer, bookMeetingRoom. simpl.
  destruct (findById (req_roomId req) (rooms st)) as [room|]; [|done].
  destruct (req_participants req >? capacity room); [done|]. simpl.
  by destruct (0 <? length _)%nat.
Qed.

(** C8 fails as stated: two handlers for overlapping intervals on room 1,
    interleaved at their awaits so that both run their overlap query before
    either saves, are both answered with a booking, and both bookings are
    stored. *)
Lemma interleaved_double_booking :
  req_roomId firstCall = req_roomId inside
  /\ overlaps (requested firstCall) (requested inside) = true
  /\ runServer (freeFloor, [AwaitFindById firstCall 1000; AwaitFindById inside 1001])
       [0; 1; 0; 1; 0; 1; 0; 1]%nat
     = (mkStore [mkRoom 1 4 (Some 1001); roomC]
                [newBookingOf firstCall; newBookingOf inside],
        [Responded (Booked (newBookingOf firstCall));
         Responded (Booked (newBookingOf inside))]).
Proof. repeat split; reflexivity. Qed.

End Booking.

(** * The properties at concrete stores *)

Section Scenarios.
Import Rooms Examples.

(** C6 fails as stated: rooms 1 and 2 are never booked and have the same
    capacity, and room 1 precedes room 2 under the composite key with the
    identity; yet room 2 is suggested under an order of ties the database
    may choose, and so is room 1 under another: the code does not select by
    identity. *)
Lemma suggestion_not_by_identity :
  maySuggest emptyFloor 3 (Suggested roomB)
  /\ In roomA (rooms emptyFloor) /\ 3 <= capacity roomA
  /\ compositeKey_ltb roomA roomB = true
  /\ maySuggest emptyFloor 3 (Suggested roomA).
Proof.
  split; [|split; [simpl; tauto|split; [simpl; lia|split; [reflexivity|]]]].
  - apply minimal_maySuggest; [simpl; tauto | simpl; lia |].
    intros r' [<-|[<-|[<-|[]]]] _; reflexivity.
  - apply minimal_maySuggest; [simpl; tauto | simpl; lia |].
    intros r' [<-|[<-|[<-|[]]]] _; reflexivity.
Qed.

(** The scenarios of the spec: best fit among never-booked rooms, a
    back-to-back booking, a booking inside a committed one, and too many
    participants. *)
Example suggest_best_fit :
  suggestMeetingRoom (mkStore [roomC; roomA] []) 3 = Suggested roomA.
Proof. reflexivity. Qed.

Example book_back_to_back :
  (bookMeetingRoom busyFloor backToBack 1000).1 = Booked (newBookingOf backToBack).
Proof. reflexivity. Qed.

Example book_inside :
  bookMeetingRoom busyFloor inside 1000 = (SlotConflict, busyFloor).
Proof. reflexivity. Qed.

Example book_too_many :
  bookMeetingRoom busyFloor tooMany 1000 = (CapacityExceeded, busyFloor).
Proof. reflexivity. Qed.

Lemma busyFloor_nonOverlapping : nonOverlapping (bookingsFor 1 busyFloor).
Proof.
  intros [|i] [|j] a b Hij Hi Hj; try done; cbn in Hi, Hj; discriminate.
Defined.

Lemma bookAll_nonOverlapping_witness :
  nonOverlapping (bookingsFor 1 busyFloor)
  /\ nonOverlapping
       (bookingsFor 1 (bookAll busyFloor [(backToBack, 1000); (inside, 1001)]).2).
Proof.
  split; [exact busyFloor_nonOverlapping|].
  exact (bookAll_nonOverlapping 1 [(backToBack, 1000); (inside, 1001)] busyFloor
           busyFloor_nonOverlapping).
Defined.

Lemma slotClauses_overlaps_witness :
  slotClauses 630 645 morning = overlaps (630, 645) (interval morning).
Proof.
  apply (slotClauses_overlaps 630 645 morning); [lia | simpl; lia].
Defined.

Lemma suggestMeetingRoom_best_fit_witness :
  exists r, suggestMeetingRoom emptyFloor 3 = Suggested r
    /\ In r (rooms emptyFloor) /\ 3 <= capacity r
    /\ forall r', In r' (rooms emptyFloor) -> 3 <= capacity r' ->
         capacity r <= capacity r'.
Proof.
  apply (proj2 (suggestMeetingRoom_best_fit emptyFloor 3)).
  exists roomC. split; [simpl; tauto | simpl; lia].
Defined.

Lemma suggestWith_minimal_witness :
  In roomB (rooms emptyFloor) /\ 3 <= capacity roomB
  /\ forall r', In r' (rooms emptyFloor) -> 3 <= capacity r' ->
       sortKey_leb roomB r' = true.
Proof.
  apply (suggestWith_minimal sortRooms emptyFloor 3 roomB).
  - exact sortRooms_admissible.
  - reflexivity.
Defined.

Lemma bookMeetingRoom_rejected_unchanged_witness :
  rejected SlotConflict
  /\ (bookMeetingRoom busyFloor inside 1000).2 = busyFloor.
Proof.
  split; [right; right; reflexivity|].
  apply (bookMeetingRoom_rejected_unchanged busyFloor inside 1000 SlotConflict).
  - reflexivity.
  - right; right; reflexivity.
Defined.

Lemma bookMeetingRoom_unknown_room_witness :
  findById (req_roomId unknownRoom) (rooms busyFloor) = None
  /\ bookMeetingRoom busyFloor unknownRoom 1000 = (RoomNotFound, busyFloor).
Proof.
  split; [reflexivity|].
  apply (bookMeetingRoom_unknown_room busyFloor unknownRoom 1000). reflexivity.
Defined.

Lemma bookAll_first_wins_witness :
  bookAll freeFloor [(firstCall, 1000); (inside, 1001)]
  = ([Booked (newBookingOf firstCall); SlotConflict],
     saveRoom 1 1000 (saveBooking (newBookingOf firstCall) freeFloor)).
Proof.
  apply (bookAll_first_wins freeFloor firstCall 1000 roomA [(inside, 1001)]).
  - reflexivity.
  - simpl. lia.
  - intros a [].
  - repeat constructor. simpl. lia.
Defined.

End Scenarios.

(** * Further properties of the layout merge *)

Section LayoutMergeMore.
Import Layout Examples.

Implicit Types (A B C : gmap string LayoutElement) (k : string).

Lemma pick_assoc (inherited : bool) (x y z : option LayoutElement) :
  (inherited = true -> z = None) ->
  pick inherited (pick inherited x y) z = pick inherited x (pick inherited y z).
Proof.
  intros Hz.
  destruct inherited.
  { rewrite (Hz eq_refl). destruct x as [a|], y as [b|]; simpl; try done.
    by destruct (timestamp b >? timestamp a). }
  destruct x as [a|], y as [b|], z as [c|]; simpl; try done;
    rewrite ?Z.gtb_ltb;
    repeat (match goal with
            | |- context [?u <? ?v] => destruct (Z.ltb_spec u v)
            end; simpl; rewrite ?Z.gtb_ltb; try done); lia.
Qed.

Lemma pick_absorb (inherited : bool) (x y : option LayoutElement) :
  pick inherited (pick inherited x y) y = pick inherited x y.
Proof.
  destruct inherited, x as [a|], y as [b|]; simpl; try done;
    rewrite ?Z.gtb_ltb;
    repeat (match goal with
            | |- context [?u <? ?v] => destruct (Z.ltb_spec u v)
            end; simpl; rewrite ?Z.gtb_ltb; try done); lia.
Qed.

(** X1: Merging is associative when the layout merged in last has no key that
    names a member of [Object.prototype]: the three layouts then merge to
    the same layout whichever two are merged first. *)
Theorem resolveConflicts_assoc A B C :
  plainKeys C ->
  resolveConflicts (resolveConflicts A B) C
  = resolveConflicts A (resolveConflicts B C).
Proof.
  intros Hplain. apply map_eq. intros k. rewrite !resolveConflicts_lookup.
  apply pick_assoc. intros Hk. by apply Hplain.
Qed.

(** X2: Merging an empty layout into a layout returns that layout.  Merging
    a layout into an empty one returns its elements at the keys that do not
    name a member of [Object.prototype], and nothing at the keys that do. *)
Theorem resolveConflicts_empty A :
  resolveConflicts A ∅ = A
  /\ forall k, resolveConflicts ∅ A !! k
               = if inheritedName k then None else A !! k.
Proof.
  split.
  - apply map_eq. intros k. rewrite resolveConflicts_lookup, lookup_empty.
    by destruct (A !! k).
  - intros k. rewrite resolveConflicts_lookup, lookup_empty.
    by destruct (A !! k), (inheritedName k).
Qed.

(** X3: The keys of the merge are the keys of the existing layout and those
    keys of the new layout that do not name a member of [Object.prototype]:
    no other key appears, and a key that only the new layout holds is
    dropped exactly when it names such a member. *)
Theorem resolveConflicts_dom A B k :
  k ∈ dom (resolveConflicts A B)
  <-> k ∈ dom A \/ (k ∈ dom B /\ inheritedName k = false).
Proof.
  rewrite !elem_of_dom, resolveConflicts_lookup.
  destruct (A !! k) as [a|], (B !! k) as [b|], (inheritedName k); simpl;
    try destruct (timestamp b >? timestamp a);
    split; intros H; eauto;
    repeat match goal with
           | H : _ \/ _ |- _ => destruct H
           | H : _ /\ _ |- _ => destruct H
           | H : is_Some None |- _ => by destruct H
           end; try done.
Qed.

(** X4: Whatever the merge holds at a key is the element of one of the two
    layouts there, and no element of either layout at that key has a later
    timestamp. *)
Theorem resolveConflicts_latest A B k e :
  resolveConflicts A B !! k = Some e ->
  (A !! k = Some e \/ B !! k = Some e)
  /\ (forall a, A !! k = Some a -> timestamp a <= timestamp e)
  /\ (forall b, B !! k = Some b -> timestamp b <= timestamp e).
Proof.
  rewrite resolveConflicts_lookup.
  destruct (A !! k) as [a|], (B !! k) as [b|]; simpl; try done.
  - rewrite Z.gtb_ltb. destruct (Z.ltb_spec (timestamp a) (timestamp b));
      intros [= <-]; (split; [auto|]); split; intros ? [= <-]; lia.
  - intros [= <-]. split; [auto|]. split; [intros ? [= <-]; lia | done].
  - destruct (inheritedName k); [done|].
    intros [= <-]. split; [auto|]. split; [done | intros ? [= <-]; lia].
Qed.

(** X5: Delivering the same layout a second time changes nothing. *)
Theorem resolveConflicts_redelivery A B :
  resolveConflicts (resolveConflicts A B) B = resolveConflicts A B.
Proof.
  apply map_eq. intros k. rewrite !resolveConflicts_lookup. apply pick_absorb.
Qed.

(** X6: For a new layout with no key that names a member of
    [Object.prototype]: if it is nowhere strictly newer than the existing
    one it only adds its own keys; if it is strictly newer at every shared
    key it replaces the existing elements there. *)
Theorem resolveConflicts_union A B :
  plainKeys B ->
  ((forall k a b, A !! k = Some a -> B !! k = Some b ->
      timestamp b <= timestamp a) ->
   resolveConflicts A B = A ∪ B)
  /\ ((forall k a b, A !! k = Some a -> B !! k = Some b ->
         timestamp a < timestamp b) ->
      resolveConflicts A B = B ∪ A).
Proof.
  intros Hplain.
  split; intros Hts; apply map_eq; intros k;
    rewrite resolveConflicts_lookup, lookup_union;
    destruct (A !! k) as [a|] eqn:Ha, (B !! k) as [b|] eqn:Hb; simpl; try done;
    try (destruct (inheritedName k) eqn:Hk; [|done];
         rewrite (Hplain k Hk) in Hb; discriminate);
    specialize (Hts k a b Ha Hb); rewrite Z.gtb_ltb;
    destruct (Z.ltb_spec (timestamp a) (timestamp b)); try done; lia.
Qed.

Lemma layoutV1at5_plainKeys : plainKeys layoutV1at5.
Proof.
  intros k Hk. unfold layoutV1at5.
  destruct (decide (k = "k1"%string)) as [->|Hne]; [discriminate Hk|].
  by rewrite lookup_singleton_ne.
Defined.

Lemma resolveConflicts_assoc_witness :
  plainKeys layoutV1at5
  /\ resolveConflicts (resolveConflicts layoutV2at7 layoutV2at5) layoutV1at5
     = resolveConflicts layoutV2at7 (resolveConflicts layoutV2at5 layoutV1at5).
Proof.
  split; [exact layoutV1at5_plainKeys|].
  exact (resolveConflicts_assoc layoutV2at7 layoutV2at5 layoutV1at5
           layoutV1at5_plainKeys).
Defined.

Lemma resolveConflicts_latest_witness :
  (layoutV1at5 !! "k1"%string = Some (mkElement "v2" 7)
   \/ layoutV2at7 !! "k1"%string = Some (mkElement "v2" 7))
  /\ (forall a, layoutV1at5 !! "k1"%string = Some a -> timestamp a <= 7)
  /\ (forall b, layoutV2at7 !! "k1"%string = Some b -> timestamp b <= 7).
Proof.
  apply (resolveConflicts_latest layoutV1at5 layoutV2at7 "k1"%string
           (mkElement "v2" 7)).
  rewrite resolveConflicts_lookup. unfold layoutV1at5, layoutV2at7.
  rewrite !lookup_singleton_eq. reflexivity.
Defined.

Lemma resolveConflicts_union_witness :
  resolveConflicts layoutV2at7 layoutV1at5 = layoutV2at7 ∪ layoutV1at5.
Proof.
  apply (proj1 (resolveConflicts_union layoutV2at7 layoutV1at5
                  layoutV1at5_plainKeys)).
  intros k a b Ha Hb. unfold layoutV1at5, layoutV2at7 in Ha, Hb.
  apply lookup_singleton_Some in Ha as [_ <-].
  apply lookup_singleton_Some in Hb as [_ <-]. simpl. lia.
Defined.

End LayoutMergeMore.

(** * Further properties of room suggestion *)

Section SuggestionMore.
Import Rooms Examples.

Implicit Types (r x y : MeetingRoom) (l : list MeetingRoom) (st : Store).


Lemma suggested_least st participants r r' :
  suggestMeetingRoom st participants = Suggested r ->
  In r' (rooms st) -> participants <= capacity r' ->
  sortKey_leb r r' = true.
Proof.
  unfold suggestMeetingRoom.
  destruct (sortRooms (findByCapacity participants (rooms st)))
    as [|r0 rest] eqn:Hs; [done|].
  intros [= ->] Hin Hcap.
  destruct (sortRooms_head _ _ _ Hs) as (l1 & l2 & Hsplit & H1 & H2).
  assert (Hr' : In r' (findByCapacity participants (rooms st)))
    by (by apply findByCapacity_In).
  rewrite Hsplit in Hr'. apply in_app_or in Hr' as [Hr'|[<-|Hr']].
  - rewrite Forall_forall in H1. apply sortKey_ltb_leb, H1.
    by apply list_elem_of_In.
  - apply sortKey_leb_refl.
  - rewrite Forall_forall in H2. apply H2. by apply list_elem_of_In.
Qed.

Lemma suggested_sufficient st participants r :
  suggestMeetingRoom st participants = Suggested r ->
  In r (rooms st) /\ participants <= capacity r.
Proof.
  unfold suggestMeetingRoom.
  destruct (sortRooms (findByCapacity participants (rooms st)))
    as [|r0 rest] eqn:Hs; [done|].
  intros [= ->].
  destruct (sortRooms_head _ _ _ Hs) as (l1 & l2 & Hsplit & _).
  apply findByCapacity_In. rewrite Hsplit. apply in_or_app. right. by left.
Qed.

(** X8: Among the sufficient rooms that are as large as the suggested one, none
    was booked earlier than it: a never-booked room goes before any booked
    one, and an earlier [lastBooked] before a later one. *)
Theorem suggestMeetingRoom_least_recently_booked st participants r r' :
  suggestMeetingRoom st participants = Suggested r ->
  In r' (rooms st) -> participants <= capacity r' ->
  capacity r' = capacity r ->
  lastBooked_ltb (lastBooked r') (lastBooked r) = false.
Proof.
  intros Hs Hin Hcap Hsame.
  pose proof (suggested_least _ _ _ _ Hs Hin Hcap) as Hle.
  unfold sortKey_leb, sortKey_ltb in Hle.
  apply negb_true_iff, orb_false_iff in Hle as [_ Hle].
  apply andb_false_iff in Hle as [Hle|Hle]; [lia | done].
Qed.

(** X9: Asking for fewer places never gets a larger room. *)
Theorem suggestMeetingRoom_monotone st fewer more r r' :
  fewer <= more ->
  suggestMeetingRoom st fewer = Suggested r' ->
  suggestMeetingRoom st more = Suggested r ->
  capacity r' <= capacity r.
Proof.
  intros Hle Hfewer Hmore.
  destruct (suggested_sufficient _ _ _ Hmore) as [Hin Hcap].
  apply sortKey_leb_capacity.
  apply (suggested_least _ _ _ _ Hfewer Hin). lia.
Qed.

Lemma findById_NoDup l r :
  NoDup (map _id l) -> In r l -> findById (_id r) l = Some r.
Proof.
  unfold findById. induction l as [|x l IH]; intros Hnd Hin; [destruct Hin|].
  simpl in *. apply NoDup_cons in Hnd as [Hx Hnd].
  destruct (N.eqb_spec (_id x) (_id r)) as [Heq|Hne].
  - destruct Hin as [->|Hin]; [done|].
    exfalso. apply Hx. rewrite Heq. apply list_elem_of_In, in_map.
    done.
  - destruct Hin as [->|Hin]; [done|]. by apply IH.
Qed.

(** X10: A call that books the suggested room for the number of participants the
    suggestion was asked for is never answered "room not found" or "capacity
    exceeded": it is booked, or its slot is taken. *)
Theorem suggested_room_bookable st participants r req now :
  NoDup (map _id (rooms st)) ->
  suggestMeetingRoom st participants = Suggested r ->
  req_roomId req = _id r -> req_participants req = participants ->
  (bookMeetingRoom st req now).1 = Booked (newBookingOf req)
  \/ (bookMeetingRoom st req now).1 = SlotConflict.
Proof.
  intros Hnd Hs Hid Hn.
  destruct (suggested_sufficient _ _ _ Hs) as [Hin Hcap].
  unfold bookMeetingRoom. rewrite Hid, (findById_NoDup _ _ Hnd Hin).
  destruct (Z.gtb_spec (req_participants req) (capacity r)); [lia|].
  destruct (0 <? length _)%nat; simpl; auto.
Qed.

End SuggestionMore.

(** * Further properties of booking *)

Section BookingMore.
Import Rooms Calls Examples.

Implicit Types (st : Store) (req : BookingRequest) (b : Booking) (now : Z).

Lemma slotClauses_proper startTime' endTime' b :
  startTime' < endTime' -> startTime b < endTime b ->
  slotClauses startTime' endTime' b = true ->
  overlaps (startTime', endTime') (interval b) = true.
Proof.
  unfold overlaps, slotClauses, interval. simpl. intros Ha Hb H.
  apply andb_true_iff.
  apply orb_true_iff in H as [H|H]; [apply orb_true_iff in H as [H|H]|];
    apply andb_true_iff in H as [H1 H2]; split; lia.
Qed.

(** A call for a stored room, within its capacity, that no stored booking of
    the room matches under the query, is booked. *)
Lemma bookMeetingRoom_free st req now room :
  findById (req_roomId req) (rooms st) = Some room ->
  req_participants req <= capacity room ->
  (forall a, In a (bookings st) -> meetingRoom a = req_roomId req ->
     slotClauses (req_startTime req) (req_endTime req) a = false) ->
  bookMeetingRoom st req now
  = (Booked (newBookingOf req),
     saveRoom (_id room) now (saveBooking (newBookingOf req) st)).
Proof.
  intros Hroom Hcap Hfree. unfold bookMeetingRoom. rewrite Hroom.
  destruct (Z.gtb_spec (req_participants req) (capacity room)); [lia|].
  destruct (0 <? length _)%nat eqn:Hlen; [|done].
  destruct (findOverlapping _ _ _ (bookings st)) as [|a l] eqn:Hf; [done|].
  assert (Ha : In a (findOverlapping (req_roomId req) (req_startTime req)
                       (req_endTime req) (bookings st))).
  { rewrite Hf. by left. }
  apply filter_In in Ha as [Hin Hq]. apply andb_true_iff in Hq as [Hr Hq].
  apply N.eqb_eq in Hr. rewrite (Hfree a Hin Hr) in Hq. discriminate.
Qed.

(** X11: A request that starts before it ends, for a stored room and within its
    capacity, is booked whenever it overlaps, under the half-open predicate,
    no committed booking of the room (each starting before it ends): in
    particular a request starting at the instant a booking ends is booked. *)
Theorem bookMeetingRoom_no_overlap_booked st req now room :
  findById (req_roomId req) (rooms st) = Some room ->
  req_participants req <= capacity room ->
  req_startTime req < req_endTime req ->
  (forall a, In a (bookingsFor (req_roomId req) st) ->
     startTime a < endTime a
     /\ overlaps (requested req) (interval a) = false) ->
  (bookMeetingRoom st req now).1 = Booked (newBookingOf req).
Proof.
  intros Hroom Hcap Hreq Hfree.
  rewrite (bookMeetingRoom_free st req now room); try done.
  intros a Hin Ha.
  destruct (Hfree a) as [Hwf Hov].
  { apply filter_In. split; [done|]. by apply N.eqb_eq. }
  destruct (slotClauses _ _ a) eqn:Hq; [|done].
  apply slotClauses_proper in Hq; try done.
  unfold requested in Hov. congruence.
Qed.

(** X12: Repeating a call that was booked is answered "slot already booked" and
    changes nothing, whatever the times of the request. *)
Theorem bookMeetingRoom_retry st req now now' b st' :
  bookMeetingRoom st req now = (Booked b, st') ->
  bookMeetingRoom st' req now' = (SlotConflict, st').
Proof.
  intros Hcall.
  destruct (bookMeetingRoom_cases _ _ _ _ _ Hcall)
    as [[[?|[?|?]] _]|(_ & Hbs & (room & Hroom & Hcap & Hrooms) & _)];
    try discriminate.
  apply (bookMeetingRoom_conflict st' req now'
           (setLastBooked (_id room) now room) (newBookingOf req)).
  - by rewrite Hrooms, findById_setLastBooked, Hroom.
  - by rewrite capacity_setLastBooked.
  - rewrite Hbs. apply in_or_app. right. by left.
  - done.
  - unfold slotClauses. simpl.
    rewrite Z.leb_refl, Z.geb_leb, Z.leb_refl. simpl.
    by rewrite orb_true_r.
Qed.

Lemma findById_Some roomId (l : list MeetingRoom) room :
  findById roomId l = Some room -> In room l /\ _id room = roomId.
Proof.
  unfold findById. intros H. apply find_some in H as [Hin Hid].
  split; [done | by apply N.eqb_eq].
Qed.

(** X13: A booked call sets [lastBooked] of its room to the instant of the call,
    keeps the room's capacity, and leaves the lookup of every other room as
    it was. *)
Theorem bookMeetingRoom_touches_one_room st req now b st' :
  bookMeetingRoom st req now = (Booked b, st') ->
  (exists room,
     findById (req_roomId req) (rooms st) = Some room
     /\ findById (req_roomId req) (rooms st')
        = Some (mkRoom (req_roomId req) (capacity room) (Some now)))
  /\ forall other, other <> req_roomId req ->
       findById other (rooms st') = findById other (rooms st).
Proof.
  intros Hcall.
  destruct (bookMeetingRoom_cases _ _ _ _ _ Hcall)
    as [[[?|[?|?]] _]|(_ & _ & (room & Hroom & _ & Hrooms) & _)];
    try discriminate.
  destruct (findById_Some _ _ _ Hroom) as [_ Hid].
  rewrite Hrooms. split.
  - exists room. split; [done|].
    rewrite findById_setLastBooked, Hroom. simpl.
    unfold setLastBooked. by rewrite N.eqb_refl, Hid.
  - intros other Hother. rewrite findById_setLastBooked.
    destruct (findById other (rooms st)) as [r|] eqn:Hr; [|done].
    destruct (findById_Some _ _ _ Hr) as [_ Hrid]. simpl.
    unfold setLastBooked.
    destruct (N.eqb_spec (_id r) (_id room)); [congruence | done].
Qed.

Lemma map_setLastBooked_keys roomId now (l : list MeetingRoom) :
  map _id (map (setLastBooked roomId now) l) = map _id l
  /\ map capacity (map (setLastBooked roomId now) l) = map capacity l.
Proof.
  rewrite !map_map. split; apply map_ext; intros r; unfold setLastBooked;
    by destruct (_id r =? roomId)%N.
Qed.

(** X14: Over any sequence of calls the store gains exactly the bookings answered
    with status 201, appended in the order of the answers; no booking is
    removed or changed, and the identities and capacities of the rooms stay
    as they were. *)
Theorem bookAll_appends (calls : list (BookingRequest * Z)) st :
  bookings (bookAll st calls).2 = bookings st ++ bookedOf (bookAll st calls).1
  /\ map _id (rooms (bookAll st calls).2) = map _id (rooms st)
  /\ map capacity (rooms (bookAll st calls).2) = map capacity (rooms st).
Proof.
  revert st. induction calls as [|[req now] calls IH]; intros st.
  { simpl. by rewrite app_nil_r. }
  simpl. destruct (bookMeetingRoom st req now) as [resp st1] eqn:Hcall.
  specialize (IH st1). destruct (bookAll st1 calls) as [resps st2]. simpl in *.
  destruct IH as (IHb & IHi & IHc).
  destruct (bookMeetingRoom_cases _ _ _ _ _ Hcall)
    as [[Hrej ->]|(-> & Hbs & (room & _ & _ & Hrooms) & _)].
  - rewrite IHb, IHi, IHc. by destruct Hrej as [-> | [-> | ->]].
  - rewrite IHb, IHi, IHc, Hbs, Hrooms, <- app_assoc. simpl.
    destruct (map_setLastBooked_keys (_id room) now (rooms st)) as [Hi Hc].
    by rewrite Hi, Hc.
Qed.

Lemma bookMeetingRoom_withinCapacity st req now :
  withinCapacity st -> withinCapacity (bookMeetingRoom st req now).2.
Proof.
  intros Hinv. destruct (bookMeetingRoom st req now) as [resp st'] eqn:Hcall.
  simpl.
  destruct (bookMeetingRoom_cases _ _ _ _ _ Hcall)
    as [[_ ->]|(_ & Hbs & (room & Hroom & Hcap & Hrooms) & _)]; [done|].
  intros b Hb. rewrite Hbs in Hb. rewrite Hrooms, findById_setLastBooked.
  apply in_app_or in Hb as [Hb|[<-|[]]].
  - destruct (Hinv b Hb) as (r & -> & Hr). simpl.
    eexists. split; [done|]. by rewrite capacity_setLastBooked.
  - simpl. rewrite Hroom. simpl.
    eexists. split; [done|]. by rewrite capacity_setLastBooked.
Qed.

(** X15: Over any sequence of calls every committed booking keeps naming a stored
    room whose capacity is at least its number of participants. *)
Theorem bookAll_withinCapacity (calls : list (BookingRequest * Z)) st :
  withinCapacity st -> withinCapacity (bookAll st calls).2.
Proof.
  revert st. induction calls as [|[req now] calls IH]; intros st Hinv; [done|].
  simpl. pose proof (bookMeetingRoom_withinCapacity st req now Hinv) as H1.
  destruct (bookMeetingRoom st req now) as [resp st1]. simpl in H1.
  specialize (IH st1 H1). by destruct (bookAll st1 calls).
Qed.

(** X16: A call for one room does not change the answer to a call for another
    room: whether the other call is made before or after it, it gets the
    same response. *)
Theorem bookMeetingRoom_other_room st req now req' now' :
  req_roomId req' <> req_roomId req ->
  (bookMeetingRoom (bookMeetingRoom st req now).2 req' now').1
  = (bookMeetingRoom st req' now').1.
Proof.
  intros Hother.
  destruct (bookMeetingRoom st req now) as [resp st1] eqn:Hcall. simpl.
  destruct (bookMeetingRoom_cases _ _ _ _ _ Hcall)
    as [[_ ->]|(_ & Hbs & (room & Hroom & _ & Hrooms) & _)]; [done|].
  unfold bookMeetingRoom. rewrite Hrooms, findById_setLastBooked, Hbs.
  destruct (findById (req_roomId req') (rooms st)) as [r|]; [|done]. simpl.
  rewrite capacity_setLastBooked.
  destruct (req_participants req' >? capacity r); [done|].
  unfold findOverlapping. rewrite List.filter_app. simpl.
  destruct (N.eqb_spec (req_roomId req) (req_roomId req')) as [Heq|_];
    [congruence|]. simpl. rewrite app_nil_r.
  by destruct (0 <? length _)%nat.
Qed.

End BookingMore.

(** * Properties of interleaved handlers *)

Section Server.
Import Rooms Calls Examples.

Implicit Types (st : Store) (h : Handler) (hs : list Handler) (b : Booking).

Lemma stepServer_middle st (done rest : list Handler) h :
  stepServer (st, done ++ h :: rest) (length done)
  = ((stepHandler st h).1, done ++ (stepHandler st h).2 :: rest).
Proof.
  unfold stepServer. rewrite list_lookup_middle; [|done].
  destruct (stepHandler st h) as [st' h']. simpl. f_equal.
  rewrite insert_app_r_alt; [|done]. by rewrite Nat.sub_diag.
Qed.

Lemma runServer_one st (done rest : list Handler) req now :
  runServer (st, done ++ AwaitFindById req now :: rest)
    [length done; length done; length done; length done]
  = ((bookMeetingRoom st req now).2,
     done ++ Responded (bookMeetingRoom st req now).1 :: rest).
Proof.
  unfold runServer, bookMeetingRoom. cbn [fold_left].
  rewrite stepServer_middle. cbn [stepHandler].
  destruct (findById (req_roomId req) (rooms st)) as [room|].
  2: { cbn [fst snd]. by rewrite !stepServer_middle. }
  destruct (req_participants req >? capacity room).
  { cbn [fst snd]. by rewrite !stepServer_middle. }
  cbn [fst snd]. rewrite stepServer_middle. cbn [stepHandler].
  destruct (0 <? length _)%nat.
  { cbn [fst snd]. by rewrite !stepServer_middle. }
  cbn [fst snd]. by rewrite !stepServer_middle.
Qed.

Lemma runServer_inSequence_from (calls : list (BookingRequest * Z)) st
    (done : list Handler) :
  runServer (st, done ++ incoming calls) (inSequence (length done) (length calls))
  = ((bookAll st calls).2, done ++ map Responded (bookAll st calls).1).
Proof.
  revert st done. induction calls as [|[req now] calls IH]; intros st done.
  { simpl. by rewrite app_nil_r. }
  change (incoming ((req, now) :: calls))
    with (AwaitFindById req now :: incoming calls).
  cbn [length inSequence bookAll].
  pose proof (runServer_one st done (incoming calls) req now) as Hone.
  unfold runServer in *. rewrite fold_left_app, Hone.
  destruct (bookMeetingRoom st req now) as [resp st1]. cbn [fst snd].
  specialize (IH st1 (done ++ [Responded resp])).
  rewrite length_app, Nat.add_1_r, <- app_assoc in IH. simpl in IH.
  rewrite IH.
  destruct (bookAll st1 calls) as [resps st2]. simpl.
  by rewrite <- app_assoc.
Qed.

(** The two embeddings of the handler agree: handlers scheduled one after
    the other, each through its four awaits before the next starts, give the
    responses and the store of the calls made in sequence. *)
Lemma runServer_inSequence (calls : list (BookingRequest * Z)) st :
  runServer (st, incoming calls) (inSequence 0 (length calls))
  = ((bookAll st calls).2, map Responded (bookAll st calls).1).
Proof. exact (runServer_inSequence_from calls st []). Qed.

(** *** What holds under every schedule *)

Lemma stepHandler_bookings st h :
  exists added, bookings (stepHandler st h).1 = bookings st ++ added.
Proof.
  destruct h as [req now|req now room|req now room nb|now room nb|resp]; simpl.
  - exists []. rewrite app_nil_r.
    destruct (findById _ _); [|done]. by destruct (_ >? _).
  - exists []. rewrite app_nil_r. by destruct (0 <? length _)%nat.
  - by exists [nb].
  - exists []. by rewrite app_nil_r.
  - exists []. by rewrite app_nil_r.
Qed.

Lemma stepHandler_hasStored st h b :
  hasStored (stepHandler st h).2 b ->
  hasStored h b \/ In b (bookings (stepHandler st h).1).
Proof.
  destruct h as [req now|req now room|req now room nb|now room nb|resp]; simpl.
  - destruct (findById _ _); [|done]. by destruct (_ >? _).
  - by destruct (0 <? length _)%nat.
  - intros ->. right. apply in_or_app. right. by left.
  - auto.
  - auto.
Qed.

Lemma stepServer_stored (sys : Store * list Handler) (i : nat) :
  (exists added, bookings (stepServer sys i).1 = bookings sys.1 ++ added)
  /\ ((forall j h b, sys.2 !! j = Some h -> hasStored h b -> In b (bookings sys.1)) ->
      forall j h b, (stepServer sys i).2 !! j = Some h -> hasStored h b ->
        In b (bookings (stepServer sys i).1)).
Proof.
  destruct sys as [st hs]. unfold stepServer.
  destruct (hs !! i) as [hi|] eqn:Hi.
  2: { split; [exists []; by rewrite app_nil_r | done]. }
  pose proof (stepHandler_bookings st hi) as [added Hadd].
  pose proof (stepHandler_hasStored st hi) as Hst.
  destruct (stepHandler st hi) as [st' h']. simpl in *.
  split; [by exists added|].
  intros Hinv j h b Hj Hh.
  apply list_lookup_insert_Some in Hj as [(-> & -> & _)|[Hne Hj]].
  - destruct (Hst b Hh) as [Hold|Hnew]; [|done].
    rewrite Hadd. apply in_or_app. left. by eapply Hinv.
  - rewrite Hadd. apply in_or_app. left. by eapply Hinv.
Qed.

Lemma runServer_stored (schedule : list nat) (sys : Store * list Handler) :
  (exists added, bookings (runServer sys schedule).1 = bookings sys.1 ++ added)
  /\ ((forall j h b, sys.2 !! j = Some h -> hasStored h b -> In b (bookings sys.1)) ->
      forall j h b, (runServer sys schedule).2 !! j = Some h -> hasStored h b ->
        In b (bookings (runServer sys schedule).1)).
Proof.
  revert sys. induction schedule as [|i schedule IH]; intros sys.
  { split; [exists []; by rewrite app_nil_r | done]. }
  unfold runServer. simpl. fold (runServer (stepServer sys i) schedule).
  destruct (stepServer_stored sys i) as [[a1 Ha1] Hinv1].
  destruct (IH (stepServer sys i)) as [[a2 Ha2] Hinv2].
  split.
  - exists (a1 ++ a2). by rewrite Ha2, Ha1, app_assoc.
  - intros Hinv. by apply Hinv2, Hinv1.
Qed.

Lemma incoming_lookup (calls : list (BookingRequest * Z)) j h :
  incoming calls !! j = Some h -> exists req now, h = AwaitFindById req now.
Proof.
  unfold incoming. rewrite list_lookup_fmap.
  destruct (calls !! j) as [[req now]|]; [|done]. intros [= <-]. eauto.
Qed.

(** X18: Whatever the order in which the awaits of the handlers complete, the
    bookings of the store are only ever appended to, and a handler answers
    with a booking only once that booking is stored. *)
Theorem runServer_booked_is_stored (calls : list (BookingRequest * Z))
    (schedule : list nat) st :
  (exists added,
     bookings (runServer (st, incoming calls) schedule).1 = bookings st ++ added)
  /\ forall b, In (Responded (Booked b)) (runServer (st, incoming calls) schedule).2 ->
       In b (bookings (runServer (st, incoming calls) schedule).1).
Proof.
  destruct (runServer_stored schedule (st, incoming calls)) as [Happ Hinv].
  split; [done|]. intros b Hb.
  apply list_elem_of_In, list_elem_of_lookup in Hb as [j Hj].
  apply (Hinv ltac:(intros j' h b' Hj' Hh;
                    apply incoming_lookup in Hj' as (? & ? & ->); destruct Hh)
           j _ b Hj).
  done.
Qed.

Lemma stepHandler_rooms st h :
  rooms (stepHandler st h).1 = rooms st
  \/ exists roomId now,
       rooms (stepHandler st h).1 = map (setLastBooked roomId now) (rooms st).
Proof.
  destruct h as [req now|req now room|req now room nb|now room nb|resp]; simpl;
    eauto.
  - destruct (findById _ _); [|by left]. destruct (_ >? _); by left.
  - destruct (0 <? length _)%nat; by left.
Qed.

Lemma fitsRoom_rooms st st' req :
  (rooms st' = rooms st
   \/ exists roomId now, rooms st' = map (setLastBooked roomId now) (rooms st)) ->
  fitsRoom st req -> fitsRoom st' req.
Proof.
  intros [Hr|(roomId & now & Hr)] (room & Hroom & Hcap); unfold fitsRoom;
    rewrite Hr.
  - eauto.
  - rewrite findById_setLastBooked, Hroom. simpl.
    eexists. split; [done|]. by rewrite capacity_setLastBooked.
Qed.

Lemma pastCapacityTest_rooms st st' h :
  (rooms st' = rooms st
   \/ exists roomId now, rooms st' = map (setLastBooked roomId now) (rooms st)) ->
  pastCapacityTest st h -> pastCapacityTest st' h.
Proof.
  intros Hr. destruct h; simpl; try done.
  - by apply fitsRoom_rooms.
  - intros [? ?]. split; [by eapply fitsRoom_rooms | done].
Qed.

Lemma stepHandler_pastCapacityTest st h :
  pastCapacityTest st h ->
  pastCapacityTest (stepHandler st h).1 (stepHandler st h).2.
Proof.
  destruct h as [req now|req now room|req now room nb|now room nb|resp]; simpl;
    try done.
  - intros _. destruct (findById _ _) as [room|] eqn:Hroom; [|done].
    destruct (Z.gtb_spec (req_participants req) (capacity room)); [done|].
    simpl. exists room. split; [done | lia].
  - intros Hfit. by destruct (0 <? length _)%nat.
Qed.

Lemma stepHandler_withinCapacity st h :
  withinCapacity st -> pastCapacityTest st h ->
  withinCapacity (stepHandler st h).1.
Proof.
  intros Hinv Hh.
  destruct h as [req now|req now room|req now room nb|now room nb|resp]; simpl.
  - destruct (findById _ _); [|done]. by destruct (_ >? _).
  - by destruct (0 <? length _)%nat.
  - destruct Hh as [Hfit ->]. intros b Hb. simpl in *.
    apply in_app_or in Hb as [Hb|[<-|[]]]; [by apply Hinv | exact Hfit].
  - intros b Hb. simpl in *. destruct (Hinv b Hb) as (r & Hr & Hcap).
    rewrite findById_setLastBooked, Hr. simpl.
    eexists. split; [done|]. by rewrite capacity_setLastBooked.
  - done.
Qed.

Lemma stepServer_withinCapacity (sys : Store * list Handler) (i : nat) :
  withinCapacity sys.1 ->
  (forall j h, sys.2 !! j = Some h -> pastCapacityTest sys.1 h) ->
  withinCapacity (stepServer sys i).1
  /\ forall j h, (stepServer sys i).2 !! j = Some h ->
       pastCapacityTest (stepServer sys i).1 h.
Proof.
  destruct sys as [st hs]. unfold stepServer. simpl. intros Hinv Hhs.
  destruct (hs !! i) as [hi|] eqn:Hi; [|done].
  pose proof (stepHandler_withinCapacity st hi Hinv (Hhs i hi Hi)) as Hw.
  pose proof (stepHandler_pastCapacityTest st hi (Hhs i hi Hi)) as Hp.
  pose proof (stepHandler_rooms st hi) as Hr.
  destruct (stepHandler st hi) as [st' h']. simpl in *.
  split; [done|]. intros j h Hj.
  apply list_lookup_insert_Some in Hj as [(-> & -> & _)|[Hne Hj]]; [done|].
  eapply pastCapacityTest_rooms; [exact Hr | by eapply Hhs].
Qed.

Lemma runServer_withinCapacity_from (schedule : list nat)
    (sys : Store * list Handler) :
  withinCapacity sys.1 ->
  (forall j h, sys.2 !! j = Some h -> pastCapacityTest sys.1 h) ->
  withinCapacity (runServer sys schedule).1.
Proof.
  revert sys. induction schedule as [|i schedule IH]; intros sys Hinv Hhs; [done|].
  unfold runServer. simpl. fold (runServer (stepServer sys i) schedule).
  destruct (stepServer_withinCapacity sys i Hinv Hhs) as [H1 H2].
  by apply IH.
Qed.

(** X19: Whatever the order in which the awaits of the handlers complete, every
    committed booking keeps naming a stored room whose capacity is at least
    its number of participants. *)
Theorem runServer_withinCapacity (calls : list (BookingRequest * Z))
    (schedule : list nat) st :
  withinCapacity st ->
  withinCapacity (runServer (st, incoming calls) schedule).1.
Proof.
  intros Hinv. apply runServer_withinCapacity_from; [done|].
  intros j h Hj. by apply incoming_lookup in Hj as (? & ? & ->).
Qed.

End Server.

(** * Properties of the booking service with a [booked] flag *)

Section Service.
Import RoomService MoreExamples.

Implicit Types (r x room : MeetingRoom) (l : list MeetingRoom)
  (requirements : Requirements) (now : Z).

Lemma sortByCapacity_nil l : sortByCapacity l = [] -> l = [].
Proof.
  destruct l as [|x l]; [done|]. simpl.
  destruct (sortByCapacity l) as [|y ys]; simpl; [done|].
  by destruct (capacity x <=? capacity y).
Qed.

Lemma sortByCapacity_head l r rest :
  sortByCapacity l = r :: rest ->
  In r l /\ forall x, In x l -> capacity r <= capacity x.
Proof.
  revert r rest. induction l as [|x l IH]; intros r rest Hs; [done|].
  simpl in Hs. destruct (sortByCapacity l) as [|y ys] eqn:Hl.
  - apply sortByCapacity_nil in Hl as ->. simpl in Hs. injection Hs as <- <-.
    split; [by left|]. intros z [<-|[]]. lia.
  - destruct (IH y ys eq_refl) as [Hin Hmin]. simpl in Hs.
    destruct (Z.leb_spec (capacity x) (capacity y)); injection Hs as <- <-.
    + split; [by left|]. intros z [<-|Hz]; [lia|]. specialize (Hmin z Hz). lia.
    + split; [by right|]. intros z [<-|Hz]; [lia | by apply Hmin].
Qed.

Lemma findAvailable_nil requirements l :
  findAvailable requirements l = [] <->
  forall r, In r l -> booked r = true \/ capacity r < req_capacity requirements.
Proof.
  unfold findAvailable. split.
  - intros Hs%sortByCapacity_nil r Hin.
    destruct (booked r) eqn:Hb; [by left|]. right.
    destruct (Z.ltb_spec (capacity r) (req_capacity requirements)); [done|].
    assert (Hr : In r (List.filter
               (fun r => negb (booked r) && (capacity r >=? req_capacity requirements))
               l)).
    { apply filter_In. split; [done|]. rewrite Hb. simpl. lia. }
    rewrite Hs in Hr. destruct Hr.
  - intros Hnone.
    destruct (sortByCapacity _) as [|r rest] eqn:Hs; [done|].
    apply sortByCapacity_head in Hs as [Hin _].
    apply filter_In in Hin as [Hin Hq]. apply andb_true_iff in Hq as [Hb Hc].
    destruct (Hnone r Hin) as [Hbooked|Hsmall].
    + rewrite Hbooked in Hb. discriminate.
    + lia.
Qed.

Lemma findAvailable_head requirements l r rest :
  findAvailable requirements l = r :: rest ->
  In r l /\ booked r = false /\ req_capacity requirements <= capacity r
  /\ forall x, In x l -> booked x = false ->
       req_capacity requirements <= capacity x -> capacity r <= capacity x.
Proof.
  unfold findAvailable. intros Hs.
  apply sortByCapacity_head in Hs as [Hin Hmin].
  apply filter_In in Hin as [Hin Hq]. apply andb_true_iff in Hq as [Hb Hc].
  apply negb_true_iff in Hb.
  repeat split; [done | done | lia |].
  intros x Hx Hfree Hcap. apply Hmin, filter_In. split; [done|].
  rewrite Hfree. simpl. lia.
Qed.

(** X20: The service throws "No available rooms" exactly when every room is
    booked or too small, and then leaves the collection as it was. *)
Theorem bookMeetingRoom_throws l requirements now :
  (forall r, In r l -> booked r = true \/ capacity r < req_capacity requirements)
  <-> bookMeetingRoom l requirements now = (Threw "No available rooms", l).
Proof.
  rewrite <- findAvailable_nil. unfold bookMeetingRoom.
  destruct (findAvailable requirements l); split; try done.
Qed.

(** X21: A room returned by the service was stored free and large enough, no free
    room large enough was smaller, and it comes back marked as booked by the
    requesting user at the instant of the call. *)
Theorem bookMeetingRoom_returns_best_fit l requirements now room l' :
  bookMeetingRoom l requirements now = (Returned room, l') ->
  exists r, In r l /\ booked r = false
    /\ req_capacity requirements <= capacity r
    /\ (forall x, In x l -> booked x = false ->
          req_capacity requirements <= capacity x -> capacity r <= capacity x)
    /\ room = mkRoom (_id r) (capacity r) true (Some (userId requirements)) (Some now)
    /\ l' = saveRoom room l.
Proof.
  unfold bookMeetingRoom.
  destruct (findAvailable requirements l) as [|r rest] eqn:Hs; [done|].
  intros [= <- <-]. exists r.
  destruct (findAvailable_head _ _ _ _ Hs) as (Hin & Hfree & Hcap & Hmin).
  by repeat split.
Qed.

Lemma saveRoom_free room l r :
  booked room = true -> In r (saveRoom room l) -> booked r = false ->
  In r l /\ _id r <> _id room.
Proof.
  intros Hroom Hin Hfree. unfold saveRoom in Hin.
  apply in_map_iff in Hin as (x & Hx & Hin).
  destruct (N.eqb_spec (_id x) (_id room)) as [Heq|Hne].
  - subst r. simpl in Hfree. congruence.
  - by subst r.
Qed.

Lemma bookMeetingRoom_returned l requirements now room l' :
  bookMeetingRoom l requirements now = (Returned room, l') ->
  booked room = true /\ l' = saveRoom room l
  /\ exists r, In r l /\ booked r = false /\ _id r = _id room.
Proof.
  unfold bookMeetingRoom.
  destruct (findAvailable requirements l) as [|r rest] eqn:Hs; [done|].
  intros [= <- <-]. destruct (findAvailable_head _ _ _ _ Hs) as (Hin & Hfree & _).
  repeat split. by exists r.
Qed.

(** X22: After the service has returned a room, no room with that identity is
    suggested again. *)
Theorem suggestMeetingRoom_not_booked l requirements now room l' requirements' r :
  bookMeetingRoom l requirements now = (Returned room, l') ->
  suggestMeetingRoom l' requirements' = Some r ->
  _id r <> _id room.
Proof.
  intros Hcall Hs.
  destruct (bookMeetingRoom_returned _ _ _ _ _ Hcall) as (Hb & -> & _).
  unfold suggestMeetingRoom in Hs.
  destruct (findAvailable requirements' (saveRoom room l)) as [|r0 rest] eqn:Ha;
    [done|]. injection Hs as ->.
  destruct (findAvailable_head _ _ _ _ Ha) as (Hin & Hfree & _).
  by destruct (saveRoom_free room l r Hb Hin Hfree).
Qed.

Lemma returned_was_free (calls : list (Requirements * Z)) l i :
  In i (returnedIds (bookEach l calls).1) ->
  exists r, In r l /\ _id r = i /\ booked r = false.
Proof.
  revert l. induction calls as [|[requirements now] calls IH]; intros l; [done|].
  simpl. destruct (bookMeetingRoom l requirements now) as [out l1] eqn:Hcall.
  specialize (IH l1). destruct (bookEach l1 calls) as [outs l2]. simpl in *.
  destruct out as [room|msg]; simpl.
  - destruct (bookMeetingRoom_returned _ _ _ _ _ Hcall) as (Hb & -> & r0 & H0).
    intros [<-|Hi]; [exists r0; tauto|].
    destruct (IH Hi) as (r & Hin & Hid & Hfree).
    destruct (saveRoom_free room l r Hb Hin Hfree) as [Hin' _]. eauto.
  - unfold bookMeetingRoom in Hcall.
    destruct (findAvailable requirements l); [|done].
    injection Hcall as _ <-. exact IH.
Qed.

(** X23: Over any sequence of calls the service never returns the same room
    twice: the identities of the returned rooms are pairwise distinct. *)
Theorem bookEach_never_twice (calls : list (Requirements * Z)) l :
  NoDup (returnedIds (bookEach l calls).1).
Proof.
  revert l. induction calls as [|[requirements now] calls IH]; intros l.
  { constructor. }
  simpl. destruct (bookMeetingRoom l requirements now) as [out l1] eqn:Hcall.
  pose proof (returned_was_free calls l1) as Hfree.
  specialize (IH l1). destruct (bookEach l1 calls) as [outs l2]. simpl in *.
  destruct out as [room|msg]; simpl; [|done].
  apply NoDup_cons. split; [|done].
  intros Hin%list_elem_of_In.
  destruct (Hfree _ Hin) as (r & Hr & Hid & Hb).
  destruct (bookMeetingRoom_returned _ _ _ _ _ Hcall) as (Hroom & -> & _).
  by destruct (saveRoom_free room l r Hroom Hr Hb).
Qed.

Lemma saveRoom_freeRooms_le room l :
  booked room = true ->
  (length (freeRooms (saveRoom room l)) <= length (freeRooms l))%nat.
Proof.
  intros Hroom. induction l as [|x l IH]; [done|]. simpl.
  destruct (_id x =? _id room)%N; simpl.
  - rewrite Hroom. simpl. destruct (booked x); simpl; lia.
  - destruct (booked x); simpl; lia.
Qed.

Lemma saveRoom_freeRooms_lt room l r :
  booked room = true -> In r l -> booked r = false -> _id r = _id room ->
  (length (freeRooms (saveRoom room l)) < length (freeRooms l))%nat.
Proof.
  intros Hroom Hin Hfree Hid. induction l as [|x l IH]; [destruct Hin|].
  pose proof (saveRoom_freeRooms_le room l Hroom) as Hle.
  change (saveRoom room (x :: l))
    with ((if (_id x =? _id room)%N
           then {| _id := _id x; capacity := capacity x;
                   booked := booked room; bookedBy := bookedBy room;
                   bookedAt := bookedAt room |}
           else x) :: saveRoom room l).
  destruct Hin as [->|Hin].
  - rewrite Hid, N.eqb_refl. unfold freeRooms in *. cbn [List.filter booked].
    rewrite Hroom, Hfree. simpl. lia.
  - specialize (IH Hin). unfold freeRooms in *.
    destruct (_id x =? _id room)%N; cbn [List.filter booked].
    + rewrite Hroom. simpl. destruct (booked x); simpl; lia.
    + destruct (booked x); simpl; lia.
Qed.

(** X24: Over any sequence of calls the service returns at most as many rooms as
    were free at the start. *)
Theorem bookEach_at_most_free (calls : list (Requirements * Z)) l :
  (length (returnedIds (bookEach l calls).1) <= length (freeRooms l))%nat.
Proof.
  revert l. induction calls as [|[requirements now] calls IH]; intros l.
  { simpl. lia. }
  simpl. destruct (bookMeetingRoom l requirements now) as [out l1] eqn:Hcall.
  specialize (IH l1). destruct (bookEach l1 calls) as [outs l2]. simpl in *.
  destruct out as [room|msg]; simpl.
  - destruct (bookMeetingRoom_returned _ _ _ _ _ Hcall)
      as (Hroom & -> & r & Hin & Hfree & Hid).
    pose proof (saveRoom_freeRooms_lt room l r Hroom Hin Hfree Hid). lia.
  - unfold bookMeetingRoom in Hcall.
    destruct (findAvailable requirements l); [|done].
    injection Hcall as _ <-. exact IH.
Qed.

Lemma saveRoom_ids room l : map _id (saveRoom room l) = map _id l.
Proof.
  unfold saveRoom. rewrite map_map. apply map_ext. intros r.
  by destruct (_id r =? _id room)%N.
Qed.

Lemma NoDup_ids_eq l r x :
  NoDup (map _id l) -> In r l -> In x l -> _id r = _id x -> r = x.
Proof.
  induction l as [|y l IH]; intros Hnd Hr Hx Hid; [destruct Hr|].
  simpl in Hnd. apply NoDup_cons in Hnd as [Hy Hnd].
  destruct Hr as [->|Hr], Hx as [->|Hx]; try done.
  - exfalso. apply Hy. rewrite Hid. by apply list_elem_of_In, in_map.
  - exfalso. apply Hy. rewrite <- Hid. by apply list_elem_of_In, in_map.
  - by apply IH.
Qed.

Lemma bookMeetingRoom_keeps l requirements now (j : nat) r :
  NoDup (map _id l) -> l !! j = Some r ->
  exists r', (bookMeetingRoom l requirements now).2 !! j = Some r'
    /\ _id r' = _id r /\ capacity r' = capacity r
    /\ (booked r = true -> r' = r).
Proof.
  intros Hnd Hj. unfold bookMeetingRoom.
  destruct (findAvailable requirements l) as [|r0 rest] eqn:Hs; simpl; [eauto|].
  destruct (findAvailable_head _ _ _ _ Hs) as (Hin & Hfree & _).
  unfold saveRoom. rewrite list_lookup_fmap, Hj. simpl.
  eexists. split; [done|].
  destruct (N.eqb_spec (_id r) (_id r0)) as [Heq|Hne]; simpl; [|done].
  repeat split. intros Hb.
  assert (r = r0); [|congruence].
  apply (NoDup_ids_eq l); try done.
  by eapply list_elem_of_In, list_elem_of_lookup_2.
Qed.

(** X25: In a collection without duplicate identities, over any sequence of calls
    every room keeps its place, identity and capacity, and a room that is
    booked keeps its booking: no later call changes who booked it or when. *)
Theorem bookEach_keeps_bookings (calls : list (Requirements * Z)) l (j : nat) r :
  NoDup (map _id l) -> l !! j = Some r ->
  exists r', (bookEach l calls).2 !! j = Some r'
    /\ _id r' = _id r /\ capacity r' = capacity r
    /\ (booked r = true -> r' = r).
Proof.
  revert l r. induction calls as [|[requirements now] calls IH];
    intros l r Hnd Hj; [by eauto|].
  simpl.
  destruct (bookMeetingRoom_keeps l requirements now j r Hnd Hj)
    as (r1 & Hj1 & Hid1 & Hcap1 & Hkeep1).
  assert (Hnd1 : NoDup (map _id (bookMeetingRoom l requirements now).2)).
  { unfold bookMeetingRoom. destruct (findAvailable requirements l); [done|].
    simpl. by rewrite saveRoom_ids. }
  destruct (bookMeetingRoom l requirements now) as [out l1]. simpl in *.
  destruct (IH l1 r1 Hnd1 Hj1) as (r2 & Hj2 & Hid2 & Hcap2 & Hkeep2).
  destruct (bookEach l1 calls) as [outs l2]. simpl in *.
  exists r2. split; [done|]. split; [congruence|]. split; [congruence|].
  intros Hb. specialize (Hkeep1 Hb). subst r1. by apply Hkeep2.
Qed.

End Service.

(** * Properties of login and signup *)

Section Authentication.
Import Auth MoreExamples.

Implicit Types (users : list User) (u : User) (n p secret : string)
  (key : option string).

Lemma find_snoc {X} (f : X -> bool) (l : list X) (x : X) :
  List.find f (l ++ [x])
  = match List.find f l with
    | Some y => Some y
    | None => if f x then Some x else None
    end.
Proof.
  induction l as [|y l IH]; simpl; [done|]. by destruct (f y).
Qed.

Lemma findOneByCredentials_Some users n p :
  (exists u, In u users /\ username u = n /\ password u = p)
  <-> exists u, findOneByCredentials n p users = Some u.
Proof.
  unfold findOneByCredentials. split.
  - intros (u & Hin & Hn & Hp).
    destruct (List.find _ users) as [v|] eqn:Hf; [by eauto|].
    pose proof (find_none _ _ Hf u Hin) as Hu. simpl in Hu.
    rewrite Hn, Hp, !String.eqb_refl in Hu. discriminate.
  - intros [u Hf]. apply find_some in Hf as [Hin Hq].
    apply andb_true_iff in Hq as [Hn%String.eqb_eq Hp%String.eqb_eq]. eauto.
Qed.

Lemma login_matching key users n p :
  (exists u, In u users /\ username u = n /\ password u = p) ->
  login key users n p
  = match sign (mkPayload n role_user) key with
    | Some token => LoginSuccessful token
    | None => ErrorOccurred
    end.
Proof.
  unfold login. intros [u Hu]%findOneByCredentials_Some. by rewrite Hu.
Qed.

Lemma login_accepts secret users n p :
  (exists u, In u users /\ username u = n /\ password u = p) ->
  secret <> EmptyString ->
  login (Some secret) users n p
  = LoginSuccessful (mkToken (mkPayload n role_user) secret).
Proof.
  intros Hu Hsecret. rewrite (login_matching _ _ _ _ Hu). simpl.
  by destruct (String.eqb_spec secret "").
Qed.

Lemma login_rejects key users n p :
  (forall u, In u users -> username u = n -> password u <> p) ->
  login key users n p = InvalidCredentials.
Proof.
  unfold login. intros Hnone.
  destruct (findOneByCredentials n p users) as [u|] eqn:Hf; [|done].
  assert (Hex : exists u, findOneByCredentials n p users = Some u) by eauto.
  apply findOneByCredentials_Some in Hex as (v & Hin & Hn & Hp).
  by destruct (Hnone v Hin Hn).
Qed.

(** X26: With a non-empty secret, a login for which some stored user has the
    given username and password is answered 200, and the token carries the
    username and the role 'user' whatever role the stored user has; with an
    empty or unset secret such a login is answered 500.  A login for which
    no stored user with that username has that password is answered 401,
    whatever the secret. *)
Theorem login_outcome key users n p :
  ((exists u, In u users /\ username u = n /\ password u = p) ->
     forall secret, key = Some secret -> secret <> EmptyString ->
     login key users n p
     = LoginSuccessful (mkToken (mkPayload n role_user) secret))
  /\ ((exists u, In u users /\ username u = n /\ password u = p) ->
      key = None \/ key = Some EmptyString ->
      login key users n p = ErrorOccurred)
  /\ ((forall u, In u users -> username u = n -> password u <> p) ->
      login key users n p = InvalidCredentials).
Proof.
  split; [|split].
  - intros Hu secret -> Hsecret. by apply login_accepts.
  - intros Hu Hkey. rewrite (login_matching _ _ _ _ Hu).
    by destruct Hkey as [-> | ->].
  - apply login_rejects.
Qed.

Lemma signup_cases users n p resp users' :
  signup users n p = (resp, users') ->
  (users' = users /\ (resp = UsernameExists \/ resp = ErrorOccurred))
  \/ (resp = SignupSuccessful (mkUser n p role_user)
      /\ users' = users ++ [mkUser n p role_user]
      /\ findOneByUsername n users = None
      /\ required n = true /\ required p = true).
Proof.
  unfold signup, saveUser. simpl.
  destruct (findOneByUsername n users) eqn:Hf.
  { intros [= <- <-]. left. auto. }
  destruct (required n) eqn:Hn, (required p) eqn:Hp; simpl;
    intros [= <- <-]; auto.
  right. by repeat split.
Qed.

(** X27: A user who has just signed up can log in with the same username and
    password when the secret is not empty, and with that username and any
    other password is refused, whatever the secret. *)
Theorem signup_then_login key users n p u users' :
  signup users n p = (SignupSuccessful u, users') ->
  (forall secret, key = Some secret -> secret <> EmptyString ->
     login key users' n p
     = LoginSuccessful (mkToken (mkPayload n role_user) secret))
  /\ forall p', p' <> p -> login key users' n p' = InvalidCredentials.
Proof.
  intros Hcall.
  destruct (signup_cases _ _ _ _ _ Hcall)
    as [[_ [?|?]]|(_ & -> & Hfresh & _)]; try discriminate.
  split.
  - intros secret -> Hsecret. apply login_accepts; [|done].
    exists (mkUser n p role_user).
    split; [|done]. apply in_or_app. right. by left.
  - intros p' Hp'. apply login_rejects. intros v Hv Hn.
    apply in_app_or in Hv as [Hv|[<-|[]]]; [|by simpl].
    unfold findOneByUsername in Hfresh.
    pose proof (find_none _ _ Hfresh v Hv) as Hq. simpl in Hq.
    rewrite Hn, String.eqb_refl in Hq. discriminate.
Qed.

(** X28: A signup is refused, and the collection left as it was, when the
    username is taken (409) and, for a new username, when the username or
    the password is empty (500). *)
Theorem signup_refused users n p :
  ((exists u, In u users /\ username u = n) ->
     signup users n p = (UsernameExists, users))
  /\ ((forall u, In u users -> username u <> n) ->
      n = EmptyString \/ p = EmptyString ->
      signup users n p = (ErrorOccurred, users)).
Proof.
  unfold signup, saveUser, findOneByUsername. simpl. split.
  - intros (u & Hin & Hn).
    destruct (List.find _ users) as [v|] eqn:Hf; [done|].
    pose proof (find_none _ _ Hf u Hin) as Hq. simpl in Hq.
    rewrite Hn, String.eqb_refl in Hq. discriminate.
  - intros Hfresh Hempty.
    destruct (List.find _ users) as [v|] eqn:Hf.
    { apply find_some in Hf as [Hin Hq%String.eqb_eq]. by destruct (Hfresh v Hin). }
    destruct Hempty as [-> | ->]; [done|].
    unfold required. simpl. by rewrite andb_false_r.
Qed.

(** X29: Signup keeps the collection well formed: usernames and passwords stay
    non-empty and no two users share a username. *)
Theorem signup_wellFormed users n p :
  wellFormed users -> wellFormed (signup users n p).2.
Proof.
  intros [Hreq Hnd].
  destruct (signup users n p) as [resp users'] eqn:Hcall. simpl.
  destruct (signup_cases _ _ _ _ _ Hcall)
    as [[-> _]|(_ & -> & Hfresh & Hn & Hp)]; [done|].
  split.
  - apply Forall_app. split; [done|]. by repeat constructor.
  - rewrite map_app. simpl. apply NoDup_app. split; [done|].
    split; [|apply NoDup_singleton].
    intros m Hm Hm'. apply list_elem_of_singleton in Hm' as ->.
    apply list_elem_of_In, in_map_iff in Hm as (v & Hv & Hin).
    unfold findOneByUsername in Hfresh.
    pose proof (find_none _ _ Hfresh v Hin) as Hq. simpl in Hq.
    rewrite Hv, String.eqb_refl in Hq. discriminate.
Qed.

(** X30: A signup does not change the answer to a login under another
    username. *)
Theorem signup_keeps_logins key users n' p' n p :
  n <> n' ->
  login key (signup users n' p').2 n p = login key users n p.
Proof.
  intros Hne.
  destruct (signup users n' p') as [resp users'] eqn:Hcall. simpl.
  destruct (signup_cases _ _ _ _ _ Hcall) as [[-> _]|(_ & -> & _)]; [done|].
  unfold login, findOneByCredentials. rewrite find_snoc. simpl.
  destruct (List.find _ users); [done|].
  destruct (String.eqb_spec n' n); [congruence | done].
Qed.

End Authentication.

(** * The further properties at concrete stores *)

Section MoreScenarios.
Import Examples MoreExamples.

Lemma suggestMeetingRoom_least_recently_booked_witness :
  Rooms.lastBooked_ltb (Rooms.lastBooked usedRoom) (Rooms.lastBooked roomB) = false.
Proof.
  apply (suggestMeetingRoom_least_recently_booked usedFloor 3 roomB usedRoom).
  - reflexivity.
  - simpl. tauto.
  - simpl. lia.
  - reflexivity.
Defined.

Lemma suggestMeetingRoom_monotone_witness :
  Rooms.capacity roomB <= Rooms.capacity roomC.
Proof.
  apply (suggestMeetingRoom_monotone emptyFloor 3 5 roomC roomB).
  - lia.
  - reflexivity.
  - reflexivity.
Defined.

Lemma emptyFloor_ids : NoDup (map Rooms._id (Rooms.rooms emptyFloor)).
Proof.
  apply (bool_decide_unpack _). vm_compute. exact I.
Defined.

Lemma suggested_room_bookable_witness :
  (Rooms.bookMeetingRoom emptyFloor suggestedCall 1000).1
  = Rooms.Booked (Rooms.newBookingOf suggestedCall)
  \/ (Rooms.bookMeetingRoom emptyFloor suggestedCall 1000).1 = Rooms.SlotConflict.
Proof.
  apply (suggested_room_bookable emptyFloor 3 roomB suggestedCall 1000).
  - exact emptyFloor_ids.
  - reflexivity.
  - reflexivity.
  - reflexivity.
Defined.

Lemma bookMeetingRoom_no_overlap_booked_witness :
  (Rooms.bookMeetingRoom busyFloor backToBack 1000).1
  = Rooms.Booked (Rooms.newBookingOf backToBack).
Proof.
  apply (bookMeetingRoom_no_overlap_booked busyFloor backToBack 1000 roomA).
  - reflexivity.
  - simpl. lia.
  - simpl. lia.
  - intros a [<-|[]]. split; [simpl; lia | reflexivity].
Defined.

Lemma bookMeetingRoom_retry_witness :
  Rooms.bookMeetingRoom (Rooms.bookMeetingRoom freeFloor firstCall 1000).2
    firstCall 1001
  = (Rooms.SlotConflict, (Rooms.bookMeetingRoom freeFloor firstCall 1000).2).
Proof.
  apply (bookMeetingRoom_retry freeFloor firstCall 1000 1001
           (Rooms.newBookingOf firstCall)).
  reflexivity.
Defined.

Lemma bookMeetingRoom_touches_one_room_witness :
  (exists room,
     Rooms.findById 1 (Rooms.rooms freeFloor) = Some room
     /\ Rooms.findById 1 (Rooms.rooms (Rooms.bookMeetingRoom freeFloor firstCall 1000).2)
        = Some (Rooms.mkRoom 1 (Rooms.capacity room) (Some 1000)))
  /\ forall other, other <> 1%N ->
       Rooms.findById other
         (Rooms.rooms (Rooms.bookMeetingRoom freeFloor firstCall 1000).2)
       = Rooms.findById other (Rooms.rooms freeFloor).
Proof.
  apply (bookMeetingRoom_touches_one_room freeFloor firstCall 1000
           (Rooms.newBookingOf firstCall)).
  reflexivity.
Defined.

Lemma busyFloor_withinCapacity : Calls.withinCapacity busyFloor.
Proof.
  intros b [<-|[]]. exists roomA. split; [reflexivity | simpl; lia].
Defined.

Lemma bookAll_withinCapacity_witness :
  Calls.withinCapacity busyFloor
  /\ Calls.withinCapacity
       (Rooms.bookAll busyFloor [(backToBack, 1000); (tooMany, 1001)]).2.
Proof.
  split; [exact busyFloor_withinCapacity|].
  exact (bookAll_withinCapacity [(backToBack, 1000); (tooMany, 1001)] busyFloor
           busyFloor_withinCapacity).
Defined.

Lemma bookMeetingRoom_other_room_witness :
  (Rooms.bookMeetingRoom (Rooms.bookMeetingRoom busyFloor backToBack 1000).2
     otherRoomCall 1001).1
  = (Rooms.bookMeetingRoom busyFloor otherRoomCall 1001).1.
Proof.
  apply (bookMeetingRoom_other_room busyFloor backToBack 1000 otherRoomCall 1001).
  simpl. lia.
Defined.

Lemma runServer_booked_is_stored_witness :
  In (Rooms.newBookingOf inside)
    (Rooms.bookings
       (Rooms.runServer (freeFloor, Calls.incoming twoCalls)
          [0; 1; 0; 1; 0; 1; 0; 1]%nat).1).
Proof.
  apply (proj2 (runServer_booked_is_stored twoCalls
                  [0; 1; 0; 1; 0; 1; 0; 1]%nat freeFloor)).
  simpl. right. left. reflexivity.
Defined.

Lemma runServer_withinCapacity_witness :
  Calls.withinCapacity
    (Rooms.runServer (busyFloor, Calls.incoming twoCalls)
       [0; 1; 0; 1; 0; 1; 0; 1]%nat).1.
Proof.
  apply (runServer_withinCapacity twoCalls [0; 1; 0; 1; 0; 1; 0; 1]%nat busyFloor).
  exact busyFloor_withinCapacity.
Defined.

Lemma bookMeetingRoom_throws_witness :
  RoomService.bookMeetingRoom office sevenSeats 1000
  = (RoomService.Threw "No available rooms", office).
Proof.
  apply (proj1 (bookMeetingRoom_throws office sevenSeats 1000)).
  intros r [<-|[<-|[<-|[]]]]; simpl; [right; lia | left; reflexivity | right; lia].
Defined.

Lemma bookMeetingRoom_returns_best_fit_witness :
  exists r, In r office /\ RoomService.booked r = false
    /\ 3 <= RoomService.capacity r
    /\ (forall x, In x office -> RoomService.booked x = false ->
          3 <= RoomService.capacity x ->
          RoomService.capacity r <= RoomService.capacity x)
    /\ RoomService.mkRoom 1 4 true (Some "bob"%string) (Some 1000)
       = RoomService.mkRoom (RoomService._id r) (RoomService.capacity r) true
           (Some "bob"%string) (Some 1000)
    /\ (RoomService.bookMeetingRoom office threeSeats 1000).2
       = RoomService.saveRoom
           (RoomService.mkRoom 1 4 true (Some "bob"%string) (Some 1000)) office.
Proof.
  apply (bookMeetingRoom_returns_best_fit office threeSeats 1000
           (RoomService.mkRoom 1 4 true (Some "bob"%string) (Some 1000))).
  reflexivity.
Defined.

Lemma suggestMeetingRoom_not_booked_witness :
  RoomService._id largeFree <> 1%N.
Proof.
  apply (suggestMeetingRoom_not_booked office threeSeats 1000
           (RoomService.mkRoom 1 4 true (Some "bob"%string) (Some 1000))
           (RoomService.bookMeetingRoom office threeSeats 1000).2
           threeSeats largeFree).
  - reflexivity.
  - reflexivity.
Defined.

Lemma office_ids : NoDup (map RoomService._id office).
Proof.
  apply (bool_decide_unpack _). vm_compute. exact I.
Defined.

Lemma bookEach_keeps_bookings_witness :
  exists r', (RoomService.bookEach office [(threeSeats, 1000); (threeSeats, 1001)]).2
             !! 1%nat = Some r'
    /\ RoomService._id r' = RoomService._id smallTaken
    /\ RoomService.capacity r' = RoomService.capacity smallTaken
    /\ (RoomService.booked smallTaken = true -> r' = smallTaken).
Proof.
  apply (bookEach_keeps_bookings [(threeSeats, 1000); (threeSeats, 1001)] office
           1%nat smallTaken).
  - exact office_ids.
  - reflexivity.
Defined.

Lemma login_outcome_witness :
  Auth.login (Some "key"%string) staff "ann" "secret"
  = Auth.LoginSuccessful (Auth.mkToken (Auth.mkPayload "ann" Auth.role_user) "key").
Proof.
  apply (proj1 (login_outcome (Some "key"%string) staff "ann" "secret")).
  - exists ann. split; [simpl; tauto | split; reflexivity].
  - reflexivity.
  - discriminate.
Defined.

Lemma signup_then_login_witness :
  (forall secret, Some "key"%string = Some secret -> secret <> EmptyString ->
     Auth.login (Some "key"%string) (Auth.signup staff "bob" "pw").2 "bob" "pw"
     = Auth.LoginSuccessful
         (Auth.mkToken (Auth.mkPayload "bob" Auth.role_user) secret))
  /\ forall p', p' <> "pw"%string ->
       Auth.login (Some "key"%string) (Auth.signup staff "bob" "pw").2 "bob" p'
       = Auth.InvalidCredentials.
Proof.
  apply (signup_then_login (Some "key"%string) staff "bob" "pw"
           (Auth.mkUser "bob" "pw" Auth.role_user)).
  reflexivity.
Defined.

Lemma signup_refused_witness :
  Auth.signup staff "ann" "other" = (Auth.UsernameExists, staff).
Proof.
  apply (proj1 (signup_refused staff "ann" "other")).
  exists ann. split; [simpl; tauto | reflexivity].
Defined.

Lemma staff_wellFormed : Auth.wellFormed staff.
Proof.
  split.
  - repeat constructor.
  - simpl. apply NoDup_singleton.
Defined.

Lemma signup_wellFormed_witness :
  Auth.wellFormed staff /\ Auth.wellFormed (Auth.signup staff "bob" "pw").2.
Proof.
  split; [exact staff_wellFormed|].
  exact (signup_wellFormed staff "bob" "pw" staff_wellFormed).
Defined.

Lemma signup_keeps_logins_witness :
  Auth.login (Some "key"%string) (Auth.signup staff "bob" "pw").2 "ann" "secret"
  = Auth.login (Some "key"%string) staff "ann" "secret".
Proof.
  apply (signup_keeps_logins (Some "key"%string) staff "bob" "pw" "ann" "secret").
  discriminate.
Defined.

End MoreScenarios.
